(** * lexileap: the Google n-gram processor ([scripts/ngram_processor.py])

    A shallow embedding of the shard catalog, the gram validator, the shard
    stream aggregator, the threshold-rank selector and the pipeline
    orchestrator, with the properties of the specification proved (or
    refuted) on it.

    Conventions of the embedding.
    - A Python [int] is a [Z] (unbounded).
    - A Python [str] is a [string]; each [ascii] is read as the code point
      of the same number, so the model covers text in the range 0..255.
      Rocq string literals have no escapes: tab and newline are the
      constants [TAB] and [LF] below.
    - A Python [dict] is an association list in insertion order with
      unique keys ([Dict]); iteration order is list order.
    - Exceptions are explicit: a fallible external call is an outcome of
      the [World] the program runs in, and every [try]/[except] of the
      source is a [match] on that outcome.
    - External effects (HTTP, object store, checkpoint store, logging,
      sleeping) are recorded as [event]s; the checkpoint store is state. *)

From Stdlib Require Import ZArith String Ascii List Bool Lia.
From Stdlib Require Import DecimalString Permutation Sorted FinFun.
Import ListNotations.
Local Open Scope string_scope.
Local Open Scope Z_scope.

(* ================================================================== *)
(** ** Python string primitives used by the script *)
(* ================================================================== *)

Module PyStr.

Definition TAB : ascii := "009"%char.
Definition LF : ascii := "010"%char.
Definition SPACE : ascii := " "%char.

(** [f"{n}"] for an [int]. *)
Definition str_of_Z (x : Z) : string := NilEmpty.string_of_int (Z.to_int x).

(** [len(s)] *)
Definition len (s : string) : Z := Z.of_nat (String.length s).

(** [s.split(sep)] for a one-character separator: never empty. *)
Fixpoint split (sep : ascii) (s : string) : list string :=
  match s with
  | EmptyString => [EmptyString]
  | String c rest =>
      if Ascii.eqb c sep then EmptyString :: split sep rest
      else match split sep rest with
           | [] => [String c EmptyString]
           | field :: fields => String c field :: fields
           end
  end.

(** [s.startswith(p)] *)
Definition startswith (p s : string) : bool := String.prefix p s.

(** [s.replace(old, new)] for a non-empty [old]: leftmost non-overlapping
    occurrences.  [skip] counts the characters of an occurrence that is
    being dropped. *)
Fixpoint replace_from (skip : nat) (old new s : string) : string :=
  match s with
  | EmptyString => EmptyString
  | String c rest =>
      match skip with
      | S k => replace_from k old new rest
      | O =>
          if startswith old s
          then new ++ replace_from (Nat.pred (String.length old)) old new rest
          else String c (replace_from O old new rest)
      end
  end.

Definition replace (old new s : string) : string := replace_from O old new s.

(** [str.isspace] on one character, code points below 256:
    U+0009..U+000D, U+001C..U+0020, U+0085, U+00A0. *)
Definition isspace (c : ascii) : bool :=
  let k := Z.of_N (N_of_ascii c) in
  ((9 <=? k) && (k <=? 13)) || ((28 <=? k) && (k <=? 32))
  || (k =? 133) || (k =? 160).

(** [s.lstrip()] *)
Fixpoint lstrip (s : string) : string :=
  match s with
  | EmptyString => EmptyString
  | String c rest => if isspace c then lstrip rest else s
  end.

(** [s.rstrip()] *)
Fixpoint rstrip (s : string) : string :=
  match s with
  | EmptyString => EmptyString
  | String c rest =>
      match rstrip rest with
      | EmptyString => if isspace c then EmptyString else String c EmptyString
      | kept => String c kept
      end
  end.

(** [s.strip()] *)
Definition strip (s : string) : string := rstrip (lstrip s).

Definition isdigit (c : ascii) : bool :=
  let k := Z.of_N (N_of_ascii c) in (48 <=? k) && (k <=? 57).

Definition digit_value (c : ascii) : Z := Z.of_N (N_of_ascii c) - 48.

(** The digits of a decimal literal, most significant first, with the
    single underscores [int] allows between digits.  [prev_digit] tells
    whether the previous character was a digit. *)
Fixpoint digits_value (prev_digit : bool) (acc : Z) (s : string) : option Z :=
  match s with
  | EmptyString => if prev_digit then Some acc else None
  | String c rest =>
      if isdigit c then digits_value true (10 * acc + digit_value c) rest
      else if Ascii.eqb c "_"%char
           then if prev_digit then digits_value false acc rest else None
           else None
  end.

(** The whitespace [int] skips around a number.  It is not the set of
    [str.strip]: below U+007F [int] knows tab, newline, vertical tab, form
    feed, carriage return and space only, and above it the two spaces of
    this range, U+0085 and U+00A0; U+001C..U+001F are no whitespace for
    it. *)
Definition int_isspace (c : ascii) : bool :=
  let k := Z.of_N (N_of_ascii c) in
  ((9 <=? k) && (k <=? 13)) || (k =? 32) || (k =? 133) || (k =? 160).

Fixpoint int_lstrip (s : string) : string :=
  match s with
  | EmptyString => EmptyString
  | String c rest => if int_isspace c then int_lstrip rest else s
  end.

Fixpoint int_rstrip (s : string) : string :=
  match s with
  | EmptyString => EmptyString
  | String c rest =>
      match int_rstrip rest with
      | EmptyString => if int_isspace c then EmptyString else String c EmptyString
      | kept => String c kept
      end
  end.

(** The number of digit characters of a literal (underscores do not
    count). *)
Fixpoint count_digits (s : string) : Z :=
  match s with
  | EmptyString => 0
  | String c rest => (if isdigit c then 1 else 0) + count_digits rest
  end.

(** The interpreter's limit on the digits of a decimal literal that
    [int] converts ([sys.int_info.default_max_str_digits]); the script
    does not change it. *)
Definition INT_MAX_STR_DIGITS : Z := 4300.

(** [int(s)]: [Some v], or [None] where Python raises [ValueError].
    Whitespace around the number is skipped, one sign is allowed, the
    digits may hold single underscores between them, and a literal of
    more than [INT_MAX_STR_DIGITS] digits is refused. *)
Definition int (s : string) : option Z :=
  match int_rstrip (int_lstrip s) with
  | String c rest =>
      let negative := Ascii.eqb c "-"%char in
      let body :=
        if negative || Ascii.eqb c "+"%char then rest else String c rest in
      if INT_MAX_STR_DIGITS <? count_digits body then None
      else if negative then option_map Z.opp (digits_value false 0 body)
           else digits_value false 0 body
  | EmptyString => None
  end.

(** Iterating a binary stream by lines: lines end after each newline and
    keep it; a last line without newline is a line too. *)
Fixpoint iter_lines (s : string) : list string :=
  match s with
  | EmptyString => []
  | String c rest =>
      if Ascii.eqb c LF then String LF EmptyString :: iter_lines rest
      else match iter_lines rest with
           | [] => [String c EmptyString]
           | line :: lines => String c line :: lines
           end
  end.

End PyStr.

(* ================================================================== *)
(** ** Configuration *)
(* ================================================================== *)

Definition FREQUENCY_THRESHOLD : Z := 5000.

Definition TOP_COUNTS : list (string * Z) :=
  [ ("1gram", 30000); ("2gram", 10000); ("3gram", 10000);
    ("4gram", 10000); ("5gram", 10000) ].

(** [d[key]] on a literal table: [None] is Python's [KeyError]. *)
Fixpoint table_get {A : Type} (d : list (string * A)) (key : string) : option A :=
  match d with
  | [] => None
  | (k, v) :: rest => if String.eqb k key then Some v else table_get rest key
  end.

(** [f"{n}gram"] *)
Definition ngram_type_of (n : Z) : string := PyStr.str_of_Z n ++ "gram".

(* ================================================================== *)
(** ** Shard catalog: [build_shard_urls] *)
(* ================================================================== *)

Definition letters : list ascii :=
  list_ascii_of_string "abcdefghijklmnopqrstuvwxyz".

Definition url_base (n : Z) : string :=
  "http://storage.googleapis.com/books/ngrams/books/googlebooks-eng-all-"
  ++ PyStr.str_of_Z n ++ "gram-20120701-".

(** [l.append(x)] *)
Definition list_append {A : Type} (l : list A) (x : A) : list A := app l [x].

(** The two loops of the source. *)
Definition build_shard_urls (n : Z) : list string :=
  let base := url_base n in
  if n =? 1 then
    fold_left
      (fun urls letter => list_append urls (base ++ String letter "" ++ ".gz"))
      letters []
  else
    fold_left
      (fun urls i =>
         fold_left
           (fun urls j =>
              let shard := String i (String j "") in
              list_append urls (base ++ shard ++ ".gz"))
           letters urls)
      letters [].

(** [url.split('/')[-1].replace('.gz', '')], as [main] computes it. *)
Definition shard_id_of (url : string) : string :=
  PyStr.replace ".gz" "" (last (PyStr.split "/"%char url) "").

(** Boolean duplicate check, used to decide [NoDup] on the catalogs. *)
Fixpoint mem_string (x : string) (l : list string) : bool :=
  match l with
  | [] => false
  | y :: rest => String.eqb x y || mem_string x rest
  end.

Fixpoint nodup_strings (l : list string) : bool :=
  match l with
  | [] => true
  | x :: rest => negb (mem_string x rest) && nodup_strings rest
  end.

(* ================================================================== *)
(** ** Dictionaries *)
(* ================================================================== *)

(** A [dict] from gram to count: association list in insertion order. *)
Definition Dict : Type := list (string * Z).

(** [d.get(k)] *)
Fixpoint dict_get (d : Dict) (k : string) : option Z :=
  match d with
  | [] => None
  | (k', v) :: rest => if String.eqb k' k then Some v else dict_get rest k
  end.

(** The count a [defaultdict(int)] holds for [k]: 0 when absent. *)
Definition dict_count (d : Dict) (k : string) : Z :=
  match dict_get d k with
  | Some v => v
  | None => 0
  end.

(** [d[k] = v]: in place when [k] is present, else a new last entry. *)
Fixpoint dict_set (d : Dict) (k : string) (v : Z) : Dict :=
  match d with
  | [] => [(k, v)]
  | (k', v') :: rest =>
      if String.eqb k' k then (k', v) :: rest else (k', v') :: dict_set rest k v
  end.

(** [d[k] += v] on a [defaultdict(int)]. *)
Definition dict_add (d : Dict) (k : string) (v : Z) : Dict :=
  dict_set d k (dict_count d k + v).

Definition dict_keys (d : Dict) : list string := map fst d.

(** [{gram: freq for gram, freq in d.items() if freq >= FREQUENCY_THRESHOLD}]:
    the keys of [d] are unique, so the comprehension keeps the entries
    that pass, in iteration order. *)
Definition above_threshold (d : Dict) : Dict :=
  filter (fun item => FREQUENCY_THRESHOLD <=? snd item) d.

(* ================================================================== *)
(** ** Gram validator: [is_alpha], [is_clean_gram] *)
(* ================================================================== *)

Definition is_ascii_letter (c : ascii) : bool :=
  let k := Z.of_N (N_of_ascii c) in
  ((97 <=? k) && (k <=? 122)) || ((65 <=? k) && (k <=? 90)).

(** What may follow the first letter for [^[a-zA-Z]+$] to match: more
    letters, then the end of the string, where [$] also matches just
    before one final newline. *)
Fixpoint alpha_rest (s : string) : bool :=
  match s with
  | EmptyString => true
  | String c rest =>
      if is_ascii_letter c then alpha_rest rest
      else Ascii.eqb c PyStr.LF && String.eqb rest EmptyString
  end.

(** [bool(re.match(r'^[a-zA-Z]+$', word))] *)
Definition is_alpha (word : string) : bool :=
  match word with
  | EmptyString => false
  | String c rest => is_ascii_letter c && alpha_rest rest
  end.

Definition is_clean_gram (tokens : list string) : bool :=
  (0 <? Z.of_nat (length tokens)) && forallb is_alpha tokens.

(* ================================================================== *)
(** ** Events of a run *)
(* ================================================================== *)

Inductive log_level : Type := INFO | ERROR.

Record RankedGram : Type := { gram : string; freq : Z }.

(** What [upload_to_storage] serialises with [json.dumps]. *)
Inductive json : Type :=
| JsonDict (d : Dict)
| JsonList (l : list RankedGram).

(** The external calls of the script, in the order they are made. *)
Inductive event : Type :=
| Log (level : log_level) (msg : string)
| HttpGet (url : string)
| Upload (bucket path : string) (data : json)
| CheckpointGet (key : string)
| CheckpointSet (key url : string)
| JobStatusSet
| Sleep (seconds : Z).

(* ================================================================== *)
(** ** Shard stream aggregator: [process_shard] *)
(* ================================================================== *)

(** What [requests.get(url, stream=True)] and the iteration over the
    (decompressed) stream deliver.  [text] is what the lines that were
    read decode to; [failure] is the exception that ends the iteration
    early, if any (connection reset, bad gzip data, undecodable bytes). *)
Inductive response : Type :=
| RequestError (e : string)
| Stream (text : string) (failure : option string).

(** The variables of [process_shard] that the loop over lines updates. *)
Record shard_vars : Type :=
  { agg : Dict; line_count : Z; shard_log : list event }.

(** One iteration of [for line in stream].  [continue] and falling off
    the end of the body both leave [agg] as it is. *)
Definition process_line (url : string) (n : Z) (st : shard_vars) (raw : string)
  : shard_vars :=
  let line := PyStr.strip raw in
  if String.eqb line "" then st
  else
    let line_count := line_count st + 1 in
    let log :=
      if line_count mod 50000 =? 0
      then list_append (shard_log st)
             (Log INFO ("Processed " ++ PyStr.str_of_Z line_count
                        ++ " lines from " ++ url))
      else shard_log st in
    let skip := {| agg := agg st; line_count := line_count; shard_log := log |} in
    let parts := PyStr.split PyStr.TAB line in
    if 3 <=? Z.of_nat (length parts) then
      let gram := nth 0 parts "" in
      match PyStr.int (nth 2 parts "") with
      | None => skip
      | Some match_count =>
          let tokens := PyStr.split PyStr.SPACE gram in
          if negb (Z.of_nat (length tokens) =? n) || negb (is_clean_gram tokens)
          then skip
          else {| agg := dict_add (agg st) gram match_count;
                  line_count := line_count; shard_log := log |}
      end
    else skip.

(** [process_shard(url, n)] on the response the request meets: the
    returned dict and the calls made.  The [except Exception] arm turns
    every failure into the empty dict. *)
Definition process_shard (resp : response) (url : string) (n : Z)
  : Dict * list event :=
  let start := [Log INFO ("Processing " ++ url); HttpGet url] in
  match resp with
  | RequestError e =>
      ([], list_append start (Log ERROR ("Error processing " ++ url ++ ": " ++ e)))
  | Stream text failure =>
      let st :=
        fold_left (process_line url n) (PyStr.iter_lines text)
          {| agg := []; line_count := 0; shard_log := start |} in
      match failure with
      | Some e =>
          ([], list_append (shard_log st)
                 (Log ERROR ("Error processing " ++ url ++ ": " ++ e)))
      | None =>
          (agg st,
           list_append (shard_log st)
             (Log INFO ("Completed " ++ url ++ ": "
                        ++ PyStr.str_of_Z (line_count st) ++ " lines, "
                        ++ PyStr.str_of_Z (Z.of_nat (length (agg st)))
                        ++ " unique grams")))
      end
  end.

(* ================================================================== *)
(** ** Threshold-rank selector: [filter_and_rank] *)
(* ================================================================== *)

(** Insertion into a list that is in descending order of count: the new
    item goes before the first item whose count is not larger. *)
Fixpoint insert_desc (x : string * Z) (l : list (string * Z)) : list (string * Z) :=
  match l with
  | [] => [x]
  | y :: rest => if snd y <=? snd x then x :: y :: rest else y :: insert_desc x rest
  end.

(** [sorted(items, key=lambda x: x[1], reverse=True)].  Python's sort is
    stable, and with [reverse=True] items with equal keys keep their
    original order; [sorted_desc_spec] below shows that this fixes the
    result, so insertion sort stands for it. *)
Fixpoint sorted_desc (l : list (string * Z)) : list (string * Z) :=
  match l with
  | [] => []
  | x :: rest => insert_desc x (sorted_desc rest)
  end.

(** [l[:k]]: a negative [k] counts from the end. *)
Definition slice_to {A : Type} (k : Z) (l : list A) : list A :=
  if 0 <=? k then firstn (Z.to_nat k) l
  else firstn (Z.to_nat (Z.of_nat (length l) + k)) l.

Definition ranked (item : string * Z) : RankedGram :=
  {| gram := fst item; freq := snd item |}.

Definition filter_and_rank (grams : Dict) (n : Z) (top_n : Z) : list RankedGram :=
  let filtered := above_threshold grams in
  let sorted_grams := sorted_desc filtered in
  map ranked (slice_to top_n sorted_grams).

(* ================================================================== *)
(** ** The world a run meets, and the monad of the orchestrator *)
(* ================================================================== *)

(** A checkpoint document of the [ngram_shards] collection.  The field
    [updatedAt], a timestamp the server sets at each write, is left out:
    nothing below speaks of it, and nothing below says that a repeated
    write leaves a document as it was. *)
Record checkpoint_doc : Type := { status : string; doc_url : string }.

(** The checkpoint store: document key to document. *)
Definition Checkpoints : Type := list (string * checkpoint_doc).

Fixpoint store_get (c : Checkpoints) (key : string) : option checkpoint_doc :=
  match c with
  | [] => None
  | (k, doc) :: rest => if String.eqb k key then Some doc else store_get rest key
  end.

(** [doc_ref.set(doc)]: the document is replaced whole. *)
Fixpoint store_set (c : Checkpoints) (key : string) (doc : checkpoint_doc)
  : Checkpoints :=
  match c with
  | [] => [(key, doc)]
  | (k, d) :: rest =>
      if String.eqb k key then (k, doc) :: rest else (k, d) :: store_set rest key doc
  end.

(** Everything outside the script that decides what a run does.  An
    [option string] is the text of the exception a call raises, if it
    raises.  Each key is read and written, and each path uploaded, once
    in a run, so the outcome of a call is a function of its key or path. *)
Record World : Type :=
  { env_FIREBASE_STORAGE_BUCKET : option string;
    firestore_client_error : option string;
    http_response : string -> response;
    checkpoint_get_error : string -> option string;
    checkpoint_set_error : string -> option string;
    upload_error : string -> option string;
    job_status_error : option string }.

(** State (the checkpoint store) and output (the calls made). *)
Definition M (A : Type) : Type := Checkpoints -> A * Checkpoints * list event.

Definition ret {A : Type} (a : A) : M A := fun c => (a, c, []).

Definition bind {A B : Type} (m : M A) (f : A -> M B) : M B :=
  fun c =>
    let '(a, c1, e1) := m c in
    let '(b, c2, e2) := f a c1 in
    (b, c2, app e1 e2).

Notation "x <- m ;; k" := (bind m (fun x => k))
  (at level 61, m at next level, right associativity).
Notation "' pat <- m ;; k" := (bind m (fun x => match x with pat => k end))
  (at level 61, pat pattern, m at next level, right associativity).
Notation "m ;; k" := (bind m (fun _ => k))
  (at level 61, right associativity).

Definition emit (e : event) : M unit := fun c => (tt, c, [e]).
Definition tell {A : Type} (r : A * list event) : M A := fun c => (fst r, c, snd r).
Definition log (level : log_level) (msg : string) : M unit := emit (Log level msg).
Definition get_store : M Checkpoints := fun c => (c, c, []).
Definition put_store (c : Checkpoints) : M unit := fun _ => (tt, c, []).

(** [for x in xs: vars = body(vars, x)] *)
Fixpoint for_each {A V : Type} (xs : list A) (body : V -> A -> M V) (vars : V) : M V :=
  match xs with
  | [] => ret vars
  | x :: rest => vars' <- body vars x ;; for_each rest body vars'
  end.

Definition result_of {A : Type} (r : A * Checkpoints * list event) : A := fst (fst r).
Definition store_of {A : Type} (r : A * Checkpoints * list event) : Checkpoints :=
  snd (fst r).
Definition events_of {A : Type} (r : A * Checkpoints * list event) : list event :=
  snd r.

(** [range(a, b)] *)
Definition range (a b : Z) : list Z :=
  map (fun i => a + Z.of_nat i) (seq 0 (Z.to_nat (b - a))).

(* ================================================================== *)
(** ** Clients of the stores, and the orchestrator [main] *)
(* ================================================================== *)

Section Orchestrator.

Variable W : World.

Definition upload_to_storage (bucket_name file_path : string) (data : json) : M unit :=
  emit (Upload bucket_name file_path data) ;;
  match upload_error W file_path with
  | None => log INFO ("Uploaded " ++ file_path ++ " to storage")
  | Some e => log ERROR ("Error uploading " ++ file_path ++ ": " ++ e)
  end.

Definition checkpoint_key (ngram_type shard_id : string) : string :=
  ngram_type ++ "_" ++ shard_id.

Definition done_doc (url : string) : checkpoint_doc :=
  {| status := "done"; doc_url := url |}.

Definition update_firestore_checkpoint (ngram_type shard_id url : string) : M unit :=
  let key := checkpoint_key ngram_type shard_id in
  emit (CheckpointSet key url) ;;
  match checkpoint_set_error W key with
  | None =>
      c <- get_store ;;
      put_store (store_set c key (done_doc url)) ;;
      log INFO ("Updated checkpoint for " ++ key)
  | Some e => log ERROR ("Error updating checkpoint: " ++ e)
  end.

(** [db_client] is [true] for a client, [false] for [None]; without one
    the function makes its own, and a failure to do so is a failure of
    the read. *)
Definition is_shard_done (ngram_type shard_id : string) (db_client : bool) : M bool :=
  let key := checkpoint_key ngram_type shard_id in
  emit (CheckpointGet key) ;;
  match checkpoint_get_error W key with
  | Some e => log ERROR ("Error checking checkpoint: " ++ e) ;; ret false
  | None =>
      c <- get_store ;;
      ret (match store_get c key with
           | Some doc => String.eqb (status doc) "done"
           | None => false
           end)
  end.

(** [for gram, freq in shard_results.items(): type_aggregate[gram] += freq] *)
Definition merge_shard (type_aggregate shard_results : Dict) : Dict :=
  fold_left (fun d item => dict_add d (fst item) (snd item))
    shard_results type_aggregate.

(** The checkpoint write of [main] when it holds a client. *)
Definition set_checkpoint_with_client (ngram_type shard_id url : string) : M unit :=
  let key := checkpoint_key ngram_type shard_id in
  emit (CheckpointSet key url) ;;
  match checkpoint_set_error W key with
  | None => c <- get_store ;; put_store (store_set c key (done_doc url))
  | Some e => log ERROR ("Error updating checkpoint with explicit client: " ++ e)
  end.

(** The variables the loop over the shards of one type updates. *)
Record type_vars : Type :=
  { type_aggregate : Dict; processed_count : Z; skipped_count : Z }.

(** Body of [for url in urls]. *)
Definition shard_loop_body (bucket_name out_prefix : string) (db_client : bool)
    (n : Z) (ngram_type : string) (vars : type_vars) (url : string) : M type_vars :=
  let shard_id := shard_id_of url in
  done <- is_shard_done ngram_type shard_id db_client ;;
  if (done : bool) then
    log INFO ("Skipping " ++ ngram_type ++ "/" ++ shard_id ++ " - already processed") ;;
    ret {| type_aggregate := type_aggregate vars;
           processed_count := processed_count vars;
           skipped_count := skipped_count vars + 1 |}
  else
    shard_results <- tell (process_shard (http_response W url) url n) ;;
    let filtered_shard := above_threshold shard_results in
    let shard_file :=
      out_prefix ++ "/" ++ ngram_type ++ "_" ++ shard_id ++ "_filtered.json" in
    upload_to_storage bucket_name shard_file (JsonDict filtered_shard) ;;
    let merged := merge_shard (type_aggregate vars) shard_results in
    (if db_client
     then set_checkpoint_with_client ngram_type shard_id url
     else update_firestore_checkpoint ngram_type shard_id url) ;;
    emit (Sleep 1) ;;
    ret {| type_aggregate := merged;
           processed_count := processed_count vars + 1;
           skipped_count := skipped_count vars |}.

(** [TOP_COUNTS[ngram_type]]; the five types of [main] are all keys
    ([TOP_COUNTS_defined]), so the [KeyError] arm is never taken. *)
Definition top_count (ngram_type : string) : Z :=
  match table_get TOP_COUNTS ngram_type with
  | Some k => k
  | None => 0
  end.

(** The consolidated outputs [main] holds across the types. *)
Record consolidated : Type :=
  { words_top : list RankedGram; phrases_top_accum : list RankedGram }.

(** Body of [for n in range(1, 6)]. *)
Definition type_loop_body (bucket_name out_prefix : string) (db_client : bool)
    (outs : consolidated) (n : Z) : M consolidated :=
  let ngram_type := ngram_type_of n in
  log INFO ("Processing " ++ ngram_type) ;;
  let urls := build_shard_urls n in
  vars <- for_each urls
            (shard_loop_body bucket_name out_prefix db_client n ngram_type)
            {| type_aggregate := []; processed_count := 0; skipped_count := 0 |} ;;
  log INFO ("Generating final results for " ++ ngram_type) ;;
  let top_results := filter_and_rank (type_aggregate vars) n (top_count ngram_type) in
  let top_file := out_prefix ++ "/" ++ ngram_type ++ "_top.json" in
  upload_to_storage bucket_name top_file (JsonList top_results) ;;
  let outs' :=
    if n =? 1
    then {| words_top := top_results;
            phrases_top_accum := phrases_top_accum outs |}
    else {| words_top := words_top outs;
            phrases_top_accum := app (phrases_top_accum outs) top_results |} in
  log INFO ("Completed " ++ ngram_type ++ ": processed "
            ++ PyStr.str_of_Z (processed_count vars) ++ ", skipped "
            ++ PyStr.str_of_Z (skipped_count vars) ++ ", final top "
            ++ PyStr.str_of_Z (Z.of_nat (length top_results)) ++ " grams") ;;
  ret outs'.

(** The truth value of a list: non-empty. *)
Definition truthy {A : Type} (l : list A) : bool :=
  match l with [] => false | _ :: _ => true end.

Definition update_job_status : M unit :=
  emit JobStatusSet ;;
  match job_status_error W with
  | None => log INFO "Updated system job status"
  | Some e => log ERROR ("Error updating system job status: " ++ e)
  end.

Definition write_consolidated (bucket_name out_prefix : string) (outs : consolidated)
  : M unit :=
  (if truthy (words_top outs)
   then upload_to_storage bucket_name (out_prefix ++ "/words_top.json")
          (JsonList (words_top outs))
   else ret tt) ;;
  (if truthy (phrases_top_accum outs)
   then upload_to_storage bucket_name (out_prefix ++ "/phrases_top.json")
          (JsonList (phrases_top_accum outs))
   else ret tt) ;;
  log INFO "Wrote consolidated words_top.json and phrases_top.json".

Definition init_firestore : M bool :=
  match firestore_client_error W with
  | None => ret true
  | Some e => log ERROR ("Failed to initialize Firestore client: " ++ e) ;; ret false
  end.

(** What [main] does once the bucket name is known. *)
Definition run_pipeline (bucket_name : string) : M unit :=
  let out_prefix := "data/google-ngram" in
  db_client <- init_firestore ;;
  outs <- for_each (range 1 6)
            (type_loop_body bucket_name out_prefix db_client)
            {| words_top := []; phrases_top_accum := [] |} ;;
  update_job_status ;;
  write_consolidated bucket_name out_prefix outs ;;
  log INFO "Google Ngram processing completed successfully".

Definition main : M unit :=
  log INFO "Starting Google Ngram processing on Compute Engine" ;;
  match env_FIREBASE_STORAGE_BUCKET W with
  | Some (String c rest) => run_pipeline (String c rest)
  | _ =>
      log ERROR "FIREBASE_STORAGE_BUCKET not set. Ensure VM metadata includes firebase-storage-bucket and startup script exports it."
  end.

End Orchestrator.

(* ================================================================== *)
(** ** The line rule in the words of the specification *)
(* ================================================================== *)

(** A token that consists solely of ASCII letters: it has a character,
    and each of its characters is a letter. *)
Definition alphabetic_only (token : string) : bool :=
  negb (String.eqb token "")
  && forallb is_ascii_letter (list_ascii_of_string token).


(** Whether a character occurs in a string. *)
Fixpoint has_char (c : ascii) (s : string) : bool :=
  match s with
  | EmptyString => false
  | String d rest => Ascii.eqb d c || has_char c rest
  end.


(** The URL of the shard with a given key. *)
Definition shard_url (n : Z) (key : string) : string := url_base n ++ key ++ ".gz".

Definition pair_keys : list string :=
  flat_map (fun i => map (fun j => String i (String j "")) letters) letters.

Definition letter_keys : list string := map (fun c => String c "") letters.

(** The shard identifier [main] derives from a catalog URL. *)
Definition shard_id_prefix (n : Z) : string :=
  "googlebooks-eng-all-" ++ PyStr.str_of_Z n ++ "gram-20120701-".

Definition in_range_1_5 (n : Z) : Prop := 1 <= n <= 5.

(** The keys of the shards of order [n]. *)
Definition shard_keys (n : Z) : list string :=
  if n =? 1 then letter_keys else pair_keys.

(** Descending order of count, and the items of one count. *)
Definition by_count_desc (a b : string * Z) : Prop := snd b <= snd a.
Definition has_count (f : Z) (item : string * Z) : bool := snd item =? f.

(* ================================================================== *)
(** ** Streams and worlds the properties are tried on *)
(* ================================================================== *)

(** A line [gram<TAB>year<TAB>count], without its newline. *)
Definition tsv_line (gram year count : string) : string :=
  gram ++ String PyStr.TAB year ++ String PyStr.TAB count.

Definition newline : string := String PyStr.LF "".

Definition empty_shard_vars : shard_vars :=
  {| agg := []; line_count := 0; shard_log := [] |}.

(* ================================================================== *)
(** ** Readings of a run used to state the properties *)
(* ================================================================== *)

(** The sum of the counts a list of items holds for one gram. *)
Definition entries_total (items : Dict) (g : string) : Z :=
  fold_right (fun item acc => if String.eqb (fst item) g then snd item + acc else acc)
    0 items.

(** A response that raises inside the [try] of [process_shard]. *)
Definition response_failed (resp : response) : bool :=
  match resp with
  | RequestError _ => true
  | Stream _ (Some _) => true
  | Stream _ None => false
  end.

(** The same world, with another response at one URL. *)
Definition with_response (W : World) (url : string) (resp : response) : World :=
  {| env_FIREBASE_STORAGE_BUCKET := env_FIREBASE_STORAGE_BUCKET W;
     firestore_client_error := firestore_client_error W;
     http_response := fun u => if String.eqb u url then resp else http_response W u;
     checkpoint_get_error := checkpoint_get_error W;
     checkpoint_set_error := checkpoint_set_error W;
     upload_error := upload_error W;
     job_status_error := job_status_error W |}.

Definition is_log (e : event) : bool :=
  match e with Log _ _ => true | _ => false end.

(** The calls of a run other than logging. *)
Definition calls (evs : list event) : list event :=
  filter (fun e => negb (is_log e)) evs.

(** What [is_shard_done] answers for a key in a store. *)
Definition checkpoint_done (W : World) (c : Checkpoints) (key : string) : bool :=
  match checkpoint_get_error W key with
  | Some _ => false
  | None =>
      match store_get c key with
      | Some doc => String.eqb (status doc) "done"
      | None => false
      end
  end.

(** The store after the checkpoint write of a shard. *)
Definition store_after_set (W : World) (c : Checkpoints) (key url : string)
  : Checkpoints :=
  match checkpoint_set_error W key with
  | None => store_set c key (done_doc url)
  | Some _ => c
  end.

(** What [process_shard] returns for a shard in a world. *)
Definition shard_results (W : World) (n : Z) (url : string) : Dict :=
  fst (process_shard (http_response W url) url n).

Definition shard_key (n : Z) (url : string) : string :=
  checkpoint_key (ngram_type_of n) (shard_id_of url).

Definition shard_file (out_prefix : string) (n : Z) (url : string) : string :=
  out_prefix ++ "/" ++ ngram_type_of n ++ "_" ++ shard_id_of url ++ "_filtered.json".

(** The URLs requested, in order. *)
Definition downloads (evs : list event) : list string :=
  flat_map (fun e => match e with HttpGet url => [url] | _ => [] end) evs.

(** The paths uploaded to, in order. *)
Definition upload_paths (evs : list event) : list string :=
  flat_map (fun e => match e with Upload _ path _ => [path] | _ => [] end) evs.

(** The data uploaded to one path of a bucket, in order. *)
Definition uploads_to (bucket path : string) (evs : list event) : list json :=
  flat_map
    (fun e =>
       match e with
       | Upload b p data =>
           if String.eqb b bucket && String.eqb p path then [data] else []
       | _ => []
       end) evs.

(** The keys a checkpoint write was made for, in order. *)
Definition checkpoint_writes (evs : list event) : list string :=
  flat_map (fun e => match e with CheckpointSet key _ => [key] | _ => [] end) evs.

(** The prefix of every path [main] uploads to. *)
Definition OUT_PREFIX : string := "data/google-ngram".

(** What the document of a key says in a store. *)
Definition stored_done (c : Checkpoints) (key : string) : bool :=
  match store_get c key with
  | Some doc => String.eqb (status doc) "done"
  | None => false
  end.

(** The shards of a list that a loop started on store [c] processes:
    those [is_shard_done] does not report done. *)
Definition processed_shards (W : World) (n : Z) (c : Checkpoints)
    (urls : list string) : list string :=
  filter (fun url => negb (checkpoint_done W c (shard_key n url))) urls.

(** [s.endswith(suffix)] *)
Fixpoint endswith (suffix s : string) : bool :=
  String.eqb s suffix
  || match s with
     | EmptyString => false
     | String _ rest => endswith suffix rest
     end.

Definition initial_type_vars : type_vars :=
  {| type_aggregate := []; processed_count := 0; skipped_count := 0 |}.

(** The loop of [main] over the shards of order [n]. *)
Definition shard_loop (W : World) (bucket : string) (db : bool) (n : Z) : M type_vars :=
  for_each (build_shard_urls n)
    (shard_loop_body W bucket OUT_PREFIX db n (ngram_type_of n)) initial_type_vars.

(** The ranked list of order [n], for a run that starts the order on
    store [c]. *)
Definition type_top (W : World) (bucket : string) (db : bool) (n : Z)
    (c : Checkpoints) : list RankedGram :=
  filter_and_rank (type_aggregate (result_of (shard_loop W bucket db n c))) n
    (top_count (ngram_type_of n)).

Definition top_path (n : Z) : string :=
  OUT_PREFIX ++ "/" ++ ngram_type_of n ++ "_top.json".
Definition words_path : string := OUT_PREFIX ++ "/words_top.json".
Definition phrases_path : string := OUT_PREFIX ++ "/phrases_top.json".

(** The consolidated outputs after the turn of order [n]. *)
Definition next_outs (outs : consolidated) (n : Z) (top_results : list RankedGram)
  : consolidated :=
  if n =? 1
  then {| words_top := top_results; phrases_top_accum := phrases_top_accum outs |}
  else {| words_top := words_top outs;
          phrases_top_accum := app (phrases_top_accum outs) top_results |}.

(** The store, the consolidated outputs and the calls (logging left out)
    of the loop of [main] over a list of orders. *)
Fixpoint types_store (W : World) (bucket : string) (db : bool) (ns : list Z)
    (c : Checkpoints) : Checkpoints :=
  match ns with
  | [] => c
  | n :: rest =>
      types_store W bucket db rest (store_of (shard_loop W bucket db n c))
  end.

Fixpoint types_outs (W : World) (bucket : string) (db : bool) (ns : list Z)
    (outs : consolidated) (c : Checkpoints) : consolidated :=
  match ns with
  | [] => outs
  | n :: rest =>
      types_outs W bucket db rest (next_outs outs n (type_top W bucket db n c))
        (store_of (shard_loop W bucket db n c))
  end.

(** The calls of one turn of the shard loop. *)
Definition turn_calls (W : World) (bucket : string) (n : Z) (c : Checkpoints)
    (url : string) : list event :=
  let key := shard_key n url in
  if checkpoint_done W c key then [CheckpointGet key]
  else [CheckpointGet key; HttpGet url;
        Upload bucket (shard_file OUT_PREFIX n url)
          (JsonDict (above_threshold (shard_results W n url)));
        CheckpointSet key url; Sleep 1].

(** The calls of the turn of one order. *)
Definition type_calls (W : World) (bucket : string) (db : bool) (n : Z)
    (c : Checkpoints) : list event :=
  app (flat_map (turn_calls W bucket n c) (build_shard_urls n))
    [Upload bucket (top_path n) (JsonList (type_top W bucket db n c))].

Fixpoint types_calls (W : World) (bucket : string) (db : bool) (ns : list Z)
    (c : Checkpoints) : list event :=
  match ns with
  | [] => []
  | n :: rest =>
      app (type_calls W bucket db n c)
        (types_calls W bucket db rest (store_of (shard_loop W bucket db n c)))
  end.

(** The calls of [write_consolidated]. *)
Definition consolidated_calls (bucket : string) (outs : consolidated) : list event :=
  app (if truthy (words_top outs)
       then [Upload bucket words_path (JsonList (words_top outs))] else [])
      (if truthy (phrases_top_accum outs)
       then [Upload bucket phrases_path (JsonList (phrases_top_accum outs))] else []).

(** Whether [main] holds a Firestore client. *)
Definition client_ok (W : World) : bool :=
  match firestore_client_error W with None => true | Some _ => false end.

Definition initial_outs : consolidated :=
  {| words_top := []; phrases_top_accum := [] |}.

(** The store the run of [main] starts order [n] on, and the ranked list
    of the order. *)
Definition store_before (W : World) (bucket : string) (c0 : Checkpoints) (n : Z)
  : Checkpoints :=
  types_store W bucket (client_ok W) (range 1 n) c0.

Definition top_of (W : World) (bucket : string) (c0 : Checkpoints) (n : Z)
  : list RankedGram :=
  type_top W bucket (client_ok W) n (store_before W bucket c0 n).

(** The log line of a checkpoint write, by the path taken in [main]. *)
Definition checkpoint_write_log (W : World) (db : bool) (key : string) : list event :=
  match checkpoint_set_error W key with
  | None => if db then [] else [Log INFO ("Updated checkpoint for " ++ key)]
  | Some e =>
      if db then [Log ERROR ("Error updating checkpoint with explicit client: " ++ e)]
      else [Log ERROR ("Error updating checkpoint: " ++ e)]
  end.

(** The calls of one turn of the shard loop that skips the shard. *)
Definition skip_events (W : World) (n : Z) (url : string) : list event :=
  let key := shard_key n url in
  app (CheckpointGet key
         :: match checkpoint_get_error W key with
            | Some e => [Log ERROR ("Error checking checkpoint: " ++ e)]
            | None => []
            end)
    [Log INFO ("Skipping " ++ ngram_type_of n ++ "/" ++ shard_id_of url
               ++ " - already processed")].

(** The calls of one turn of the shard loop that processes the shard. *)
Definition process_events (W : World) (bucket out_prefix : string) (db : bool)
    (n : Z) (url : string) : list event :=
  let key := shard_key n url in
  let path := shard_file out_prefix n url in
  app (CheckpointGet key
         :: match checkpoint_get_error W key with
            | Some e => [Log ERROR ("Error checking checkpoint: " ++ e)]
            | None => []
            end)
    (app (snd (process_shard (http_response W url) url n))
       (app [Upload bucket path (JsonDict (above_threshold (shard_results W n url)));
             match upload_error W path with
             | None => Log INFO ("Uploaded " ++ path ++ " to storage")
             | Some e => Log ERROR ("Error uploading " ++ path ++ ": " ++ e)
             end]
          (app (CheckpointSet key url :: checkpoint_write_log W db key)
             [Sleep 1]))).

(** The calls of the turn of the shard loop for [url], by what the store
    the loop started on says of the shard. *)
Definition turn_events (W : World) (bucket out_prefix : string) (db : bool)
    (n : Z) (c : Checkpoints) (url : string) : list event :=
  if checkpoint_done W c (shard_key n url)
  then skip_events W n url
  else process_events W bucket out_prefix db n url.

(** The bucket name [main] reads from the environment. *)
Definition bucket_of (W : World) (bucket : string) : Prop :=
  env_FIREBASE_STORAGE_BUCKET W = Some bucket /\ bucket <> "".

(** A world with the bucket set and every store call working, in which
    every request fails. *)
Definition world_all_fail : World :=
  {| env_FIREBASE_STORAGE_BUCKET := Some "bucket";
     firestore_client_error := None;
     http_response := fun _ => RequestError "503 Server Error";
     checkpoint_get_error := fun _ => None;
     checkpoint_set_error := fun _ => None;
     upload_error := fun _ => None;
     job_status_error := None |}.

(** The same world, except that the shards of order 1 deliver one line,
    ["cat<TAB>1900<TAB>6000"]. *)
Definition world_cat : World :=
  {| env_FIREBASE_STORAGE_BUCKET := Some "bucket";
     firestore_client_error := None;
     http_response :=
       fun url =>
         if PyStr.startswith (url_base 1) url
         then Stream (tsv_line "cat" "1900" "6000" ++ newline) None
         else RequestError "503 Server Error";
     checkpoint_get_error := fun _ => None;
     checkpoint_set_error := fun _ => None;
     upload_error := fun _ => None;
     job_status_error := None |}.

(** The first shard of order 1. *)
Definition url_1a : string := shard_url 1 "a".



(* ================================================================== *)
(** ** Readings used by the further properties *)
(* ================================================================== *)

(** A gram that [process_shard] admits for order [n]: it splits on
    single spaces into [n] tokens that pass [is_clean_gram]. *)
Definition admitted_gram (n : Z) (g : string) : Prop :=
  Z.of_nat (length (PyStr.split PyStr.SPACE g)) = n
  /\ is_clean_gram (PyStr.split PyStr.SPACE g) = true.

(** The checkpoint write of [main], by the client it holds. *)
Definition write_checkpoint (W : World) (db : bool) (ngram_type shard_id url : string)
  : M unit :=
  if db then set_checkpoint_with_client W ngram_type shard_id url
  else update_firestore_checkpoint W ngram_type shard_id url.

(** Lines that are not blank: something is left after [strip]. *)
Definition counted_lines (lines : list string) : list string :=
  filter (fun raw => negb (String.eqb (PyStr.strip raw) "")) lines.

(** A world without the bucket variable. *)
Definition world_no_bucket : World :=
  {| env_FIREBASE_STORAGE_BUCKET := None;
     firestore_client_error := None;
     http_response := fun _ => RequestError "503 Server Error";
     checkpoint_get_error := fun _ => None;
     checkpoint_set_error := fun _ => None;
     upload_error := fun _ => None;
     job_status_error := None |}.

(** A world whose checkpoint store fails every read and every write. *)
Definition world_store_down : World :=
  {| env_FIREBASE_STORAGE_BUCKET := Some "bucket";
     firestore_client_error := Some "unavailable";
     http_response := fun _ => RequestError "503 Server Error";
     checkpoint_get_error := fun _ => Some "unavailable";
     checkpoint_set_error := fun _ => Some "unavailable";
     upload_error := fun _ => None;
     job_status_error := Some "unavailable" |}.

(** A map whose keys are unique and are grams admitted for order [n]. *)
Definition well_keyed (n : Z) (d : Dict) : Prop :=
  NoDup (dict_keys d) /\ forall g, In g (dict_keys d) -> admitted_gram n g.

(** The sum of a list of integers. *)
Definition Zsum (l : list Z) : Z := fold_right Z.add 0 l.

(** Descending order of [freq] on ranked grams. *)
Definition by_freq_desc (a b : RankedGram) : Prop := freq b <= freq a.

(** The calls of the turn of an order all of whose shards are recorded
    done: one read per shard, and the upload of an empty list. *)
Definition skipped_order_calls (bucket : string) (n : Z) : list event :=
  app (map (fun url => CheckpointGet (shard_key n url)) (build_shard_urls n))
    [Upload bucket (top_path n) (JsonList [])].

(** Every shard of the five catalogs is reported done on store [c]. *)
Definition all_done (W : World) (c : Checkpoints) : Prop :=
  forall n url, in_range_1_5 n -> In url (build_shard_urls n) ->
                checkpoint_done W c (shard_key n url) = true.

(** The character of a catalog URL that tells its order. *)
Definition order_char (url : string) : option ascii :=
  String.get
    (String.length
       "http://storage.googleapis.com/books/ngrams/books/googlebooks-eng-all-")
    url.

(* ================================================================== *)
(** * Properties *)
(* ================================================================== *)

(* ------------------------------------------------------------------ *)
(** ** The shard catalog *)
(* ------------------------------------------------------------------ *)

Lemma mem_string_In (x : string) (l : list string) :
  mem_string x l = true <-> In x l.
Proof.
  induction l as [|y l IH]; simpl.
  - split; [discriminate | tauto].
  - rewrite orb_true_iff, IH, String.eqb_eq. split; intros [H|H]; auto.
Qed.

Lemma nodup_strings_NoDup (l : list string) :
  nodup_strings l = true -> NoDup l.
Proof.
  induction l as [|x l IH]; simpl; intro H.
  - constructor.
  - apply andb_true_iff in H. destruct H as [Hx Hl].
    constructor; [|now apply IH].
    intro Hin. apply mem_string_In in Hin. rewrite Hin in Hx. discriminate.
Qed.

Lemma fold_left_list_append {A B : Type} (f : A -> B) (xs : list A) (init : list B) :
  fold_left (fun acc x => list_append acc (f x)) xs init = app init (map f xs).
Proof.
  revert init. induction xs as [|x xs IH]; intro init; simpl.
  - now rewrite app_nil_r.
  - rewrite IH. unfold list_append. now rewrite <- app_assoc.
Qed.


Lemma build_shard_urls_1 :
  build_shard_urls 1 = map (shard_url 1) letter_keys.
Proof.
  unfold build_shard_urls. replace (1 =? 1) with true by reflexivity.
  rewrite (fold_left_list_append (fun letter => url_base 1 ++ String letter "" ++ ".gz")).
  unfold letter_keys. rewrite map_map. reflexivity.
Qed.

Lemma fold_left_pairs {B : Type} (f : ascii -> ascii -> B) (xs ys : list ascii)
    (init : list B) :
  fold_left
    (fun acc i => fold_left (fun acc j => list_append acc (f i j)) ys acc) xs init
  = app init (flat_map (fun i => map (f i) ys) xs).
Proof.
  revert init. induction xs as [|x xs IH]; intro init; simpl.
  - now rewrite app_nil_r.
  - rewrite (fold_left_list_append (f x)), IH. now rewrite <- app_assoc.
Qed.

Lemma map_flat_map_pairs {A B C : Type} (g : B -> C) (h : A -> A -> B)
    (xs ys : list A) :
  map g (flat_map (fun i => map (h i) ys) xs)
  = flat_map (fun i => map (fun j => g (h i j)) ys) xs.
Proof.
  induction xs as [|x xs IH]; simpl; [reflexivity|].
  now rewrite map_app, map_map, IH.
Qed.

Lemma build_shard_urls_pairs (n : Z) :
  n <> 1 -> build_shard_urls n = map (shard_url n) pair_keys.
Proof.
  intro Hn. unfold build_shard_urls.
  destruct (Z.eqb_spec n 1) as [E|_]; [contradiction|].
  rewrite (fold_left_pairs
             (fun i j => url_base n ++ String i (String j "") ++ ".gz")).
  unfold pair_keys. rewrite map_flat_map_pairs. reflexivity.
Qed.

Lemma nth_indep_map {A B : Type} (f : A -> B) (l : list A) (k : nat) (d : B) (d' : A) :
  (k < length l)%nat -> nth k (map f l) d = f (nth k l d').
Proof.
  intro H. rewrite (nth_indep (map f l) d (f d')) by now rewrite length_map.
  apply map_nth.
Qed.


Lemma string_app_inv_head (p a b : string) : p ++ a = p ++ b -> a = b.
Proof.
  induction p as [|c p IH]; simpl; intro H; [exact H|].
  injection H as H. now apply IH.
Qed.

Lemma string_length_app (a b : string) :
  String.length (a ++ b) = (String.length a + String.length b)%nat.
Proof. induction a as [|c a IH]; simpl; [reflexivity | now rewrite IH]. Qed.

Lemma string_app_assoc (a b c : string) : (a ++ b) ++ c = a ++ b ++ c.
Proof. induction a as [|x a IH]; simpl; [reflexivity | now rewrite IH]. Qed.

Lemma string_app_nil_r (a : string) : a ++ "" = a.
Proof. induction a as [|x a IH]; simpl; [reflexivity | now rewrite IH]. Qed.

Lemma string_app_inv_tail (s a b : string) : a ++ s = b ++ s -> a = b.
Proof.
  revert b. induction a as [|x a IH]; intros [|y b] H; simpl in H.
  - reflexivity.
  - apply (f_equal String.length) in H. simpl in H.
    rewrite string_length_app in H. lia.
  - apply (f_equal String.length) in H. simpl in H.
    rewrite string_length_app in H. lia.
  - injection H as -> H. f_equal. now apply IH.
Qed.

Lemma NoDup_map_prefix (p : string) (keys : list string) :
  NoDup keys -> NoDup (map (fun k => p ++ k) keys).
Proof.
  intro H. apply Finite.Injective_map_NoDup; [|exact H].
  intros a b. apply string_app_inv_head.
Qed.

Lemma NoDup_map_shard_url (n : Z) (keys : list string) :
  NoDup keys -> NoDup (map (shard_url n) keys).
Proof.
  intro H. apply Finite.Injective_map_NoDup; [|exact H].
  intros a b E. unfold shard_url in E.
  apply string_app_inv_head in E. now apply string_app_inv_tail in E.
Qed.

Lemma letter_keys_NoDup : NoDup letter_keys.
Proof. apply nodup_strings_NoDup. vm_compute. reflexivity. Qed.

Lemma pair_keys_NoDup : NoDup pair_keys.
Proof. apply nodup_strings_NoDup. vm_compute. reflexivity. Qed.


Lemma range_1_5_cases (n : Z) :
  in_range_1_5 n -> n = 1 \/ n = 2 \/ n = 3 \/ n = 4 \/ n = 5.
Proof. unfold in_range_1_5. lia. Qed.


Lemma build_shard_urls_keys (n : Z) :
  build_shard_urls n = map (shard_url n) (shard_keys n).
Proof.
  unfold shard_keys. destruct (Z.eqb_spec n 1) as [->|Hn].
  - apply build_shard_urls_1.
  - now apply build_shard_urls_pairs.
Qed.

Lemma shard_keys_NoDup (n : Z) : NoDup (shard_keys n).
Proof.
  unfold shard_keys. destruct (n =? 1);
    [apply letter_keys_NoDup | apply pair_keys_NoDup].
Qed.

Lemma shard_ids_of_catalog (n : Z) :
  in_range_1_5 n ->
  map shard_id_of (build_shard_urls n)
  = map (fun k => shard_id_prefix n ++ k) (shard_keys n).
Proof.
  intro H. apply range_1_5_cases in H.
  destruct H as [->|[->|[->|[->| ->]]]]; vm_compute; reflexivity.
Qed.

Lemma build_shard_urls_NoDup (n : Z) : NoDup (build_shard_urls n).
Proof.
  rewrite build_shard_urls_keys.
  apply NoDup_map_shard_url, shard_keys_NoDup.
Qed.

Lemma shard_ids_NoDup (n : Z) :
  in_range_1_5 n -> NoDup (map shard_id_of (build_shard_urls n)).
Proof.
  intro H. rewrite (shard_ids_of_catalog n H).
  apply NoDup_map_prefix, shard_keys_NoDup.
Qed.

(** C6. [build_shard_urls 1] is the 26 URLs of the letters a..z in
    alphabetical order; for every order 2..5 it is the 676 URLs of the
    ordered pairs of letters, first letter in the outer loop and second
    in the inner one; the shard identifiers [main] derives from the URLs
    of one order are pairwise different (and so are the URLs).  The
    function is a pure function of [n]: it makes no call to the world. *)
Theorem build_shard_urls_catalog (n : Z) (Hn : in_range_1_5 n) :
  letters = map ascii_of_nat (seq 97 26)
  /\ build_shard_urls 1 = map (fun c => shard_url 1 (String c "")) letters
  /\ length (build_shard_urls 1) = 26%nat
  /\ (2 <= n ->
      build_shard_urls n
      = flat_map (fun i => map (fun j => shard_url n (String i (String j ""))) letters)
          letters
      /\ length (build_shard_urls n) = 676%nat
      /\ forall i j : nat, (i < 26)%nat -> (j < 26)%nat ->
           nth (26 * i + j) (build_shard_urls n) ""
           = shard_url n (String (nth i letters " "%char)
                            (String (nth j letters " "%char) "")))
  /\ NoDup (map shard_id_of (build_shard_urls n))
  /\ NoDup (build_shard_urls n).
Proof.
  split; [reflexivity|].
  split; [rewrite build_shard_urls_1; unfold letter_keys; now rewrite map_map|].
  split; [rewrite build_shard_urls_1; reflexivity|].
  split; [|split; [now apply shard_ids_NoDup | apply build_shard_urls_NoDup]].
  intro H2.
  assert (Hne : n <> 1) by lia.
  rewrite (build_shard_urls_pairs n Hne).
  assert (Hflat : map (shard_url n) pair_keys
                  = flat_map (fun i => map (fun j => shard_url n (String i (String j "")))
                                          letters) letters).
  { unfold pair_keys. now rewrite map_flat_map_pairs. }
  split; [exact Hflat|].
  split; [rewrite length_map; reflexivity|].
  intros i j Hi Hj.
  assert (Hk : nth (26 * i + j) pair_keys ""
               = String (nth i letters " "%char) (String (nth j letters " "%char) "")).
  { do 26 (destruct i as [|i]; [do 26 (destruct j as [|j]; [reflexivity|]); lia|]).
    lia. }
  rewrite <- Hk. apply nth_indep_map.
  change (length pair_keys) with 676%nat. lia.
Qed.

Lemma build_shard_urls_catalog_witness :
  in_range_1_5 3 /\ length (build_shard_urls 3) = 676%nat.
Proof.
  assert (H : in_range_1_5 3) by (unfold in_range_1_5; lia).
  split; [exact H|].
  destruct (build_shard_urls_catalog 3 H) as (_ & _ & _ & H2 & _).
  apply H2. lia.
Defined.

(* ------------------------------------------------------------------ *)
(** ** The threshold-rank selector *)
(* ------------------------------------------------------------------ *)


Lemma insert_desc_perm (x : string * Z) (l : list (string * Z)) :
  Permutation (insert_desc x l) (x :: l).
Proof.
  induction l as [|y l IH]; simpl; [reflexivity|].
  destruct (snd y <=? snd x); [reflexivity|].
  rewrite IH. apply perm_swap.
Qed.

Lemma sorted_desc_perm (l : list (string * Z)) : Permutation (sorted_desc l) l.
Proof.
  induction l as [|x l IH]; simpl; [reflexivity|].
  rewrite insert_desc_perm. now constructor.
Qed.

Lemma insert_desc_sorted (x : string * Z) (l : list (string * Z)) :
  StronglySorted by_count_desc l -> StronglySorted by_count_desc (insert_desc x l).
Proof.
  induction 1 as [|y l Hs IH Hy]; simpl.
  - constructor; constructor.
  - destruct (Z.leb_spec (snd y) (snd x)) as [Hle|Hgt].
    + constructor; [constructor; assumption|].
      constructor; [exact Hle|].
      eapply Forall_impl; [|exact Hy]. unfold by_count_desc. intros a Ha. lia.
    + constructor; [exact IH|].
      rewrite (insert_desc_perm x l). constructor; [|exact Hy].
      unfold by_count_desc. lia.
Qed.

Lemma sorted_desc_sorted (l : list (string * Z)) :
  StronglySorted by_count_desc (sorted_desc l).
Proof.
  induction l as [|x l IH]; simpl; [constructor | now apply insert_desc_sorted].
Qed.

Lemma insert_desc_stable (f : Z) (x : string * Z) (l : list (string * Z)) :
  filter (has_count f) (insert_desc x l) = filter (has_count f) (x :: l).
Proof.
  induction l as [|y l IH]; [reflexivity|].
  simpl insert_desc. destruct (Z.leb_spec (snd y) (snd x)) as [Hle|Hgt]; [reflexivity|].
  simpl. simpl in IH. rewrite IH. unfold has_count.
  destruct (Z.eqb_spec (snd y) f) as [Ey|Ny], (Z.eqb_spec (snd x) f) as [Ex|Nx];
    try reflexivity.
  lia.
Qed.

Lemma sorted_desc_stable (f : Z) (l : list (string * Z)) :
  filter (has_count f) (sorted_desc l) = filter (has_count f) l.
Proof.
  induction l as [|x l IH]; [reflexivity|].
  simpl sorted_desc. rewrite insert_desc_stable. simpl. now rewrite IH.
Qed.

(** Descending order and stability leave one list only: whatever stable
    sort Python runs, it returns [sorted_desc]. *)
Lemma stable_desc_unique (l1 l2 : list (string * Z)) :
  StronglySorted by_count_desc l1 ->
  StronglySorted by_count_desc l2 ->
  (forall f, filter (has_count f) l1 = filter (has_count f) l2) ->
  l1 = l2.
Proof.
  intro H1. revert l2.
  induction H1 as [|x l1 Hs1 IH Hx]; intros l2 H2 Hf.
  - destruct l2 as [|y l2]; [reflexivity|].
    specialize (Hf (snd y)). simpl in Hf. unfold has_count in Hf at 1.
    rewrite Z.eqb_refl in Hf. discriminate.
  - destruct H2 as [|y l2 Hs2 Hy].
    + specialize (Hf (snd x)). simpl in Hf. unfold has_count in Hf at 1.
      rewrite Z.eqb_refl in Hf. discriminate.
    + assert (Hxy : snd x = snd y).
      { destruct (Z.lt_total (snd x) (snd y)) as [Hlt|[E|Hgt]]; [|exact E|].
        - exfalso. assert (Hin : In y (filter (has_count (snd y)) (x :: l1))).
          { rewrite Hf. simpl. unfold has_count at 1. rewrite Z.eqb_refl. now left. }
          apply filter_In in Hin. destruct Hin as [[<-|Hin] _]; [lia|].
          rewrite Forall_forall in Hx. specialize (Hx y Hin).
          unfold by_count_desc in Hx. lia.
        - exfalso. assert (Hin : In x (filter (has_count (snd x)) (y :: l2))).
          { rewrite <- Hf. simpl. unfold has_count at 1. rewrite Z.eqb_refl. now left. }
          apply filter_In in Hin. destruct Hin as [[<-|Hin] _]; [lia|].
          rewrite Forall_forall in Hy. specialize (Hy x Hin).
          unfold by_count_desc in Hy. lia. }
      assert (Exy : x = y).
      { specialize (Hf (snd x)). simpl in Hf.
        assert (Hcx : has_count (snd x) x = true) by apply Z.eqb_refl.
        assert (Hcy : has_count (snd x) y = true)
          by (unfold has_count; rewrite Hxy; apply Z.eqb_refl).
        rewrite Hcx, Hcy in Hf. now injection Hf. }
      subst y. f_equal. apply IH; [exact Hs2|].
      intro f. specialize (Hf f). simpl in Hf.
      destruct (has_count f x); [now injection Hf | exact Hf].
Qed.

Lemma sorted_desc_spec (l result : list (string * Z)) :
  StronglySorted by_count_desc result ->
  (forall f, filter (has_count f) result = filter (has_count f) l) ->
  result = sorted_desc l.
Proof.
  intros Hs Hf. apply stable_desc_unique; [exact Hs | apply sorted_desc_sorted|].
  intro f. now rewrite Hf, sorted_desc_stable.
Qed.

Lemma slice_to_firstn {A : Type} (k : Z) (l : list A) :
  0 <= k -> slice_to k l = firstn (Z.to_nat k) l.
Proof.
  intro H. unfold slice_to. destruct (Z.leb_spec 0 k); [reflexivity | lia].
Qed.

Lemma TOP_COUNTS_defined (n : Z) :
  in_range_1_5 n ->
  table_get TOP_COUNTS (ngram_type_of n) = Some (if n =? 1 then 30000 else 10000).
Proof.
  intro H. apply range_1_5_cases in H.
  destruct H as [->|[->|[->|[->| ->]]]]; reflexivity.
Qed.

(** C2. [filter_and_rank] keeps exactly the entries of the aggregate with
    count at least 5000, in their iteration order (the filter comes
    first: the ranking and the cut see survivors only); sorts them in
    descending order of count, entries of equal count keeping the order
    they had among the survivors; and returns the first [k] of them as
    [{gram, freq}] records.  The result has [min k (number of survivors)]
    entries, all the survivors when they are no more than [k].  The cap
    is 30000 for order 1 and 10000 for orders 2..5.  ([k] is a cap: a
    count, not negative.) *)
Theorem filter_and_rank_spec (grams : Dict) (n k : Z) (Hk : 0 <= k) :
  let survivors := filter (fun item => 5000 <=? snd item) grams in
  let sorted := sorted_desc survivors in
  (forall item, In item survivors <-> In item grams /\ 5000 <= snd item)
  /\ Permutation sorted survivors
  /\ StronglySorted by_count_desc sorted
  /\ (forall f, filter (has_count f) sorted = filter (has_count f) survivors)
  /\ filter_and_rank grams n k = map ranked (firstn (Z.to_nat k) sorted)
  /\ Z.of_nat (length (filter_and_rank grams n k))
     = Z.min k (Z.of_nat (length survivors))
  /\ (Z.of_nat (length survivors) <= k ->
      filter_and_rank grams n k = map ranked sorted)
  /\ top_count (ngram_type_of 1) = 30000
  /\ (forall m, 2 <= m <= 5 -> top_count (ngram_type_of m) = 10000).
Proof.
  intros survivors sorted.
  assert (Hlen : length sorted = length survivors)
    by (apply Permutation_length, sorted_desc_perm).
  assert (Hrank : filter_and_rank grams n k = map ranked (firstn (Z.to_nat k) sorted)).
  { unfold filter_and_rank. now rewrite slice_to_firstn. }
  split; [|split; [|split; [|split; [|split; [|split; [|split; [|split]]]]]]].
  - intro item. unfold survivors. rewrite filter_In, Z.leb_le. tauto.
  - apply sorted_desc_perm.
  - apply sorted_desc_sorted.
  - intro f. apply sorted_desc_stable.
  - exact Hrank.
  - rewrite Hrank, length_map, length_firstn, Hlen. lia.
  - intro Hall. rewrite Hrank, firstn_all2; [reflexivity | lia].
  - reflexivity.
  - intros m Hm. assert (Hr : in_range_1_5 m) by (unfold in_range_1_5; lia).
    unfold top_count. rewrite (TOP_COUNTS_defined m Hr).
    destruct (Z.eqb_spec m 1); [lia | reflexivity].
Qed.

Lemma filter_and_rank_spec_witness :
  0 <= 2
  /\ filter_and_rank [("a", 7000); ("b", 9000); ("c", 10); ("d", 7000); ("e", 9000)] 1 2
     = [ {| gram := "b"; freq := 9000 |}; {| gram := "e"; freq := 9000 |} ].
Proof.
  assert (H : 0 <= 2) by lia.
  split; [exact H|].
  destruct (filter_and_rank_spec
              [("a", 7000); ("b", 9000); ("c", 10); ("d", 7000); ("e", 9000)] 1 2 H)
    as (_ & _ & _ & _ & Hrank & _).
  rewrite Hrank. reflexivity.
Defined.

(* ------------------------------------------------------------------ *)
(** ** Lines of a shard stream *)
(* ------------------------------------------------------------------ *)



Lemma isspace_LF : PyStr.isspace PyStr.LF = true.
Proof. reflexivity. Qed.



Lemma split_not_nil (sep : ascii) (s : string) : PyStr.split sep s <> [].
Proof.
  destruct s as [|c s]; simpl; [discriminate|].
  destruct (Ascii.eqb c sep); [discriminate|].
  destruct (PyStr.split sep s); discriminate.
Qed.

Lemma split_has_char (c sep : ascii) (s : string) :
  has_char c s = false ->
  Forall (fun field => has_char c field = false) (PyStr.split sep s).
Proof.
  induction s as [|d s IH]; intro H; simpl.
  - constructor; [reflexivity | constructor].
  - simpl in H. apply orb_false_iff in H. destruct H as [Hd Hs].
    specialize (IH Hs). destruct (Ascii.eqb d sep).
    + constructor; [reflexivity | exact IH].
    + destruct (PyStr.split sep s) as [|field fields].
      * constructor; [simpl; now rewrite Hd | constructor].
      * inversion IH as [|? ? Hf Hfs]; subst.
        constructor; [simpl; now rewrite Hd, Hf | exact Hfs].
Qed.


Lemma is_ascii_letter_not_LF (c : ascii) :
  is_ascii_letter c = true -> Ascii.eqb c PyStr.LF = false.
Proof.
  intro H. destruct (Ascii.eqb_spec c PyStr.LF) as [->|]; [discriminate H | reflexivity].
Qed.

Lemma alpha_rest_letters (s : string) :
  has_char PyStr.LF s = false ->
  alpha_rest s = forallb is_ascii_letter (list_ascii_of_string s).
Proof.
  induction s as [|c s IH]; intro H; [reflexivity|].
  simpl in H. apply orb_false_iff in H. destruct H as [Hc Hs].
  simpl. destruct (is_ascii_letter c); simpl; [now apply IH|].
  now rewrite Hc.
Qed.

(** On a token without newline the regular expression of [is_alpha]
    accepts exactly the non-empty strings of letters. *)
Lemma is_alpha_alphabetic_only (token : string) :
  has_char PyStr.LF token = false -> is_alpha token = alphabetic_only token.
Proof.
  destruct token as [|c s]; intro H; [reflexivity|].
  simpl in H. apply orb_false_iff in H. destruct H as [_ Hs].
  unfold alphabetic_only. simpl. now rewrite (alpha_rest_letters s Hs).
Qed.

(** [$] also matches before a final newline: such a token passes. *)
Example is_alpha_final_newline :
  is_alpha (String "a"%char (String PyStr.LF "")) = true
  /\ alphabetic_only (String "a"%char (String PyStr.LF "")) = false.
Proof. split; reflexivity. Qed.

(** [int] on the edges: the separators U+001C..U+001F are no whitespace
    for it although [strip] removes them, a no-break space is, and a
    literal of 4301 digits is refused where one of 4300 is read. *)
Example int_edges :
  PyStr.int (String "028"%char "6000") = None
  /\ PyStr.int (String "031"%char "6000") = None
  /\ PyStr.int (String "160"%char " 6000 ") = Some 6000
  /\ PyStr.int "+1_000" = Some 1000
  /\ PyStr.int "1__0" = None
  /\ PyStr.int "- 5" = None
  /\ PyStr.int (string_of_list_ascii (repeat "0"%char 4300)) = Some 0
  /\ PyStr.int (string_of_list_ascii (repeat "0"%char 4301)) = None.
Proof. repeat split; vm_compute; reflexivity. Qed.

(** A count field that starts with U+001C is no integer: the line is
    dropped. *)
Example process_line_separator_in_count :
  agg (process_line "u" 1 empty_shard_vars
         (tsv_line "cat" "1900" (String "028"%char "6000")))
  = [].
Proof. reflexivity. Qed.

Lemma forallb_ext_in {A : Type} (f g : A -> bool) (l : list A) :
  Forall (fun x => f x = g x) l -> forallb f l = forallb g l.
Proof. induction 1 as [|x l Hx _ IH]; simpl; [reflexivity | now rewrite Hx, IH]. Qed.

Lemma is_clean_gram_tokens (gram : string) :
  has_char PyStr.LF gram = false ->
  is_clean_gram (PyStr.split PyStr.SPACE gram)
  = forallb alphabetic_only (PyStr.split PyStr.SPACE gram).
Proof.
  intro H. unfold is_clean_gram.
  assert (Hne := split_not_nil PyStr.SPACE gram).
  replace (0 <? Z.of_nat (length (PyStr.split PyStr.SPACE gram))) with true.
  - simpl. apply forallb_ext_in.
    eapply Forall_impl; [|apply (split_has_char PyStr.LF PyStr.SPACE gram H)].
    intros token Ht. now apply is_alpha_alphabetic_only.
  - symmetry. apply Z.ltb_lt.
    destruct (PyStr.split PyStr.SPACE gram); [congruence | simpl; lia].
Qed.

Lemma dict_get_set_same (d : Dict) (k : string) (v : Z) :
  dict_get (dict_set d k v) k = Some v.
Proof.
  induction d as [|[k' v'] d IH]; simpl.
  - now rewrite String.eqb_refl.
  - destruct (String.eqb k' k) eqn:E; simpl; rewrite E; [reflexivity | exact IH].
Qed.

Lemma dict_get_set_other (d : Dict) (k k' : string) (v : Z) :
  k <> k' -> dict_get (dict_set d k v) k' = dict_get d k'.
Proof.
  intro Hne. induction d as [|[k0 v0] d IH]; simpl.
  - destruct (String.eqb_spec k k'); [contradiction | reflexivity].
  - destruct (String.eqb_spec k0 k) as [->|Hk]; simpl.
    + destruct (String.eqb_spec k k'); [contradiction | reflexivity].
    + destruct (String.eqb k0 k'); [reflexivity | exact IH].
Qed.


Lemma dict_count_add_same (d : Dict) (k : string) (v : Z) :
  dict_count (dict_add d k v) k = dict_count d k + v.
Proof.
  unfold dict_add. unfold dict_count at 1. now rewrite dict_get_set_same.
Qed.

Lemma dict_count_add_other (d : Dict) (k k' : string) (v : Z) :
  k <> k' -> dict_count (dict_add d k v) k' = dict_count d k'.
Proof.
  intro H. unfold dict_add, dict_count. now rewrite dict_get_set_other.
Qed.






(* ------------------------------------------------------------------ *)
(** ** Merging a shard into the aggregate *)
(* ------------------------------------------------------------------ *)

Lemma dict_count_add (d : Dict) (k g : string) (v : Z) :
  dict_count (dict_add d k v) g
  = dict_count d g + (if String.eqb k g then v else 0).
Proof.
  destruct (String.eqb_spec k g) as [->|Hne].
  - apply dict_count_add_same.
  - rewrite dict_count_add_other by exact Hne. lia.
Qed.

Lemma dict_count_merge (agg0 shard : Dict) (g : string) :
  dict_count (merge_shard agg0 shard) g = dict_count agg0 g + entries_total shard g.
Proof.
  unfold merge_shard. revert agg0.
  induction shard as [|[k v] shard IH]; intro agg0; simpl; [lia|].
  rewrite IH, dict_count_add. destruct (String.eqb k g); lia.
Qed.

Lemma entries_total_nonneg (shard : Dict) (g : string) :
  (forall item, In item shard -> 0 <= snd item) -> 0 <= entries_total shard g.
Proof.
  induction shard as [|[k v] shard IH]; intro H; simpl; [lia|].
  assert (0 <= v) by (apply (H (k, v)); now left).
  assert (0 <= entries_total shard g) by (apply IH; intros; apply H; now right).
  destruct (String.eqb k g); lia.
Qed.

(** C8, as the code has it.  A merge step adds to the count of every gram
    what the shard holds for it, and changes nothing else; when the counts
    of the shard are not negative, every count after the merge is at
    least the count before.  (The code does not check the sign of a
    count: [int] reads ["-5"] as -5.) *)
Theorem merge_shard_monotone (type_agg shard : Dict) (g : string)
    (Hshard : forall item, In item shard -> 0 <= snd item) :
  dict_count (merge_shard type_agg shard) g
  = dict_count type_agg g + entries_total shard g
  /\ dict_count type_agg g <= dict_count (merge_shard type_agg shard) g.
Proof.
  split; [apply dict_count_merge|].
  rewrite dict_count_merge. pose proof (entries_total_nonneg shard g Hshard). lia.
Qed.

Lemma merge_shard_monotone_witness :
  (forall item, In item [("cat", 6000); ("dog", 0)] -> 0 <= snd item)
  /\ dict_count [("cat", 10)] "cat"
     <= dict_count (merge_shard [("cat", 10)] [("cat", 6000); ("dog", 0)]) "cat".
Proof.
  assert (H : forall item, In item [("cat", 6000); ("dog", 0)] -> 0 <= snd item).
  { intros item [<-|[<-|[]]]; simpl; lia. }
  split; [exact H|].
  apply (merge_shard_monotone [("cat", 10)] [("cat", 6000); ("dog", 0)] "cat" H).
Defined.

(** C8 as it is stated fails on a shard with a negative match count: the
    stream line ["cat<TAB>1900<TAB>-5"] is accepted, the shard's map is
    [{cat: -5}], and merging it takes the count of ["cat"] from 10 to 5. *)
Lemma merge_shard_negative_count :
  fst (process_shard (Stream (tsv_line "cat" "1900" "-5" ++ newline) None) "u" 1)
  = [("cat", -5)]
  /\ dict_count (merge_shard [("cat", 10)] [("cat", -5)]) "cat" = 5
  /\ ~ (dict_count [("cat", 10)] "cat"
        <= dict_count
             (merge_shard [("cat", 10)]
                (fst (process_shard
                        (Stream (tsv_line "cat" "1900" "-5" ++ newline) None) "u" 1)))
             "cat").
Proof.
  split; [reflexivity|]. split; [reflexivity|]. vm_compute. intro H. now apply H.
Qed.

(* ------------------------------------------------------------------ *)
(** ** Running the orchestrator *)
(* ------------------------------------------------------------------ *)

Lemma bind_run {A B : Type} (m : M A) (f : A -> M B) (c : Checkpoints) :
  bind m f c
  = (result_of (f (result_of (m c)) (store_of (m c))),
     store_of (f (result_of (m c)) (store_of (m c))),
     app (events_of (m c)) (events_of (f (result_of (m c)) (store_of (m c))))).
Proof.
  unfold bind, result_of, store_of, events_of.
  destruct (m c) as [[a c1] e1]. simpl.
  destruct (f a c1) as [[b c2] e2]. reflexivity.
Qed.

Lemma for_each_cons {A V : Type} (x : A) (xs : list A) (body : V -> A -> M V)
    (vars : V) (c : Checkpoints) :
  for_each (x :: xs) body vars c
  = (result_of (for_each xs body (result_of (body vars x c)) (store_of (body vars x c))),
     store_of (for_each xs body (result_of (body vars x c)) (store_of (body vars x c))),
     app (events_of (body vars x c))
       (events_of (for_each xs body (result_of (body vars x c))
                     (store_of (body vars x c))))).
Proof. simpl. apply bind_run. Qed.

Lemma upload_to_storage_run (W : World) (bucket path : string) (data : json)
    (c : Checkpoints) :
  upload_to_storage W bucket path data c
  = (tt, c,
     [Upload bucket path data;
      match upload_error W path with
      | None => Log INFO ("Uploaded " ++ path ++ " to storage")
      | Some e => Log ERROR ("Error uploading " ++ path ++ ": " ++ e)
      end]).
Proof.
  unfold upload_to_storage. rewrite bind_run.
  destruct (upload_error W path); reflexivity.
Qed.

Lemma is_shard_done_run (W : World) (ngram_type shard_id : string) (db : bool)
    (c : Checkpoints) :
  let key := checkpoint_key ngram_type shard_id in
  is_shard_done W ngram_type shard_id db c
  = (checkpoint_done W c key, c,
     CheckpointGet key
       :: match checkpoint_get_error W key with
          | Some e => [Log ERROR ("Error checking checkpoint: " ++ e)]
          | None => []
          end).
Proof.
  intro key. unfold is_shard_done, checkpoint_done. fold key. rewrite bind_run.
  destruct (checkpoint_get_error W key); reflexivity.
Qed.

Lemma checkpoint_write_run (W : World) (ngram_type shard_id url : string) (db : bool)
    (c : Checkpoints) :
  let key := checkpoint_key ngram_type shard_id in
  (if db then set_checkpoint_with_client W ngram_type shard_id url
   else update_firestore_checkpoint W ngram_type shard_id url) c
  = (tt, store_after_set W c key url,
     CheckpointSet key url :: checkpoint_write_log W db key).
Proof.
  intro key. unfold store_after_set, checkpoint_write_log.
  destruct db; unfold set_checkpoint_with_client, update_firestore_checkpoint;
    fold key; rewrite bind_run; destruct (checkpoint_set_error W key); reflexivity.
Qed.

Lemma shard_loop_body_run (W : World) (bucket out_prefix : string) (db : bool)
    (n : Z) (vars : type_vars) (url : string) (c : Checkpoints) :
  shard_loop_body W bucket out_prefix db n (ngram_type_of n) vars url c
  = if checkpoint_done W c (shard_key n url)
    then ({| type_aggregate := type_aggregate vars;
             processed_count := processed_count vars;
             skipped_count := skipped_count vars + 1 |},
          c, skip_events W n url)
    else ({| type_aggregate := merge_shard (type_aggregate vars) (shard_results W n url);
             processed_count := processed_count vars + 1;
             skipped_count := skipped_count vars |},
          store_after_set W c (shard_key n url) url,
          process_events W bucket out_prefix db n url).
Proof.
  unfold shard_loop_body, is_shard_done, upload_to_storage,
    set_checkpoint_with_client, update_firestore_checkpoint, checkpoint_done,
    skip_events, process_events, checkpoint_write_log, store_after_set,
    shard_key, shard_results, shard_file, log.
  cbv beta iota delta [bind ret emit tell get_store put_store].
  destruct (checkpoint_get_error W (checkpoint_key (ngram_type_of n) (shard_id_of url)));
    [| destruct (store_get c (checkpoint_key (ngram_type_of n) (shard_id_of url)))
         as [doc|]; [destruct (String.eqb (status doc) "done")|] ];
    try reflexivity;
    destruct db;
    destruct (upload_error W _);
    destruct (checkpoint_set_error W _); reflexivity.
Qed.

Lemma store_get_set_same (c : Checkpoints) (key : string) (doc : checkpoint_doc) :
  store_get (store_set c key doc) key = Some doc.
Proof.
  induction c as [|[k d] c IH]; simpl.
  - now rewrite String.eqb_refl.
  - destruct (String.eqb k key) eqn:E; simpl; rewrite E; [reflexivity | exact IH].
Qed.

Lemma store_get_set_other (c : Checkpoints) (key key' : string) (doc : checkpoint_doc) :
  key <> key' -> store_get (store_set c key doc) key' = store_get c key'.
Proof.
  intro Hne. induction c as [|[k d] c IH]; simpl.
  - destruct (String.eqb_spec key key'); [contradiction | reflexivity].
  - destruct (String.eqb_spec k key) as [->|Hk]; simpl.
    + destruct (String.eqb_spec key key'); [contradiction | reflexivity].
    + destruct (String.eqb k key'); [reflexivity | exact IH].
Qed.

Lemma store_after_set_other (W : World) (c : Checkpoints) (key url key' : string) :
  key <> key' -> store_get (store_after_set W c key url) key' = store_get c key'.
Proof.
  intro H. unfold store_after_set.
  destruct (checkpoint_set_error W key); [reflexivity | now apply store_get_set_other].
Qed.

Lemma checkpoint_done_store (W : World) (c c' : Checkpoints) (key : string) :
  store_get c' key = store_get c key ->
  checkpoint_done W c' key = checkpoint_done W c key.
Proof. intro H. unfold checkpoint_done. now rewrite H. Qed.

Lemma flat_map_ext_in {A B : Type} (f g : A -> list B) (l : list A) :
  (forall x, In x l -> f x = g x) -> flat_map f l = flat_map g l.
Proof.
  induction l as [|x l IH]; intro H; simpl; [reflexivity|].
  rewrite (H x) by now left. f_equal. apply IH. intros y Hy. apply H. now right.
Qed.

Lemma filter_ext_in' {A : Type} (f g : A -> bool) (l : list A) :
  (forall x, In x l -> f x = g x) -> filter f l = filter g l.
Proof.
  induction l as [|x l IH]; intro H; simpl; [reflexivity|].
  rewrite (H x) by now left.
  rewrite IH by (intros y Hy; apply H; now right). reflexivity.
Qed.

(** The shard loop in closed form: which shards are processed is decided
    by the store the loop starts on, because the loop writes the key of
    a shard only after it has read it, and no two shards share a key. *)
Lemma shard_loop_run (W : World) (bucket out_prefix : string) (db : bool)
    (n : Z) (urls : list string) :
  NoDup (map (shard_key n) urls) ->
  forall (vars : type_vars) (c : Checkpoints),
  let r := for_each urls
             (shard_loop_body W bucket out_prefix db n (ngram_type_of n)) vars c in
  type_aggregate (result_of r)
  = fold_left merge_shard
      (map (shard_results W n) (processed_shards W n c urls)) (type_aggregate vars)
  /\ store_of r
     = fold_left (fun c' url => store_after_set W c' (shard_key n url) url)
         (processed_shards W n c urls) c
  /\ events_of r = flat_map (turn_events W bucket out_prefix db n c) urls.
Proof.
  induction urls as [|url urls IH]; intros Hnd vars c r.
  - subst r. simpl. auto.
  - subst r. rewrite for_each_cons, shard_loop_body_run.
    inversion Hnd as [|k ks Hnotin Hnd']; subst.
    unfold result_of, store_of, events_of. cbn [fst snd].
    unfold processed_shards. cbn [filter flat_map]. unfold turn_events at 1.
    destruct (checkpoint_done W c (shard_key n url)) eqn:Hdone; cbn [negb fst snd].
    + specialize (IH Hnd'
                    {| type_aggregate := type_aggregate vars;
                       processed_count := processed_count vars;
                       skipped_count := skipped_count vars + 1 |} c).
      destruct IH as (Ha & Hs & He).
      unfold result_of, store_of, events_of in Ha, Hs, He.
      rewrite Ha, Hs, He. auto.
    + specialize (IH Hnd'
                    {| type_aggregate :=
                         merge_shard (type_aggregate vars) (shard_results W n url);
                       processed_count := processed_count vars + 1;
                       skipped_count := skipped_count vars |}
                    (store_after_set W c (shard_key n url) url)).
      destruct IH as (Ha & Hs & He).
      unfold result_of, store_of, events_of in Ha, Hs, He.
      assert (Hsame : forall u, In u urls ->
                checkpoint_done W (store_after_set W c (shard_key n url) url)
                  (shard_key n u)
                = checkpoint_done W c (shard_key n u)).
      { intros u Hu. apply checkpoint_done_store, store_after_set_other.
        intro E. apply Hnotin. rewrite E. now apply in_map. }
      assert (Hproc : processed_shards W n (store_after_set W c (shard_key n url) url) urls
                      = processed_shards W n c urls).
      { apply filter_ext_in'. intros u Hu. now rewrite Hsame. }
      unfold processed_shards in Hproc.
      rewrite Ha, Hs, He. unfold processed_shards. rewrite Hproc.
      cbn [map fold_left]. split; [reflexivity|]. split; [reflexivity|].
      f_equal. apply flat_map_ext_in. intros u Hu. unfold turn_events.
      now rewrite Hsame.
Qed.

(* ------------------------------------------------------------------ *)
(** ** The calls of a run *)
(* ------------------------------------------------------------------ *)

Lemma calls_app (l1 l2 : list event) : calls (app l1 l2) = app (calls l1) (calls l2).
Proof. apply filter_app. Qed.

Lemma calls_log_append (l : list event) (level : log_level) (msg : string) :
  calls (list_append l (Log level msg)) = calls l.
Proof. unfold list_append. rewrite calls_app. simpl. apply app_nil_r. Qed.

Lemma process_line_calls (url : string) (n : Z) (st : shard_vars) (raw : string) :
  calls (shard_log (process_line url n st raw)) = calls (shard_log st).
Proof.
  unfold process_line.
  destruct (String.eqb (PyStr.strip raw) ""); [reflexivity|].
  assert (Hlog : calls (if (line_count st + 1) mod 50000 =? 0
                        then list_append (shard_log st)
                               (Log INFO ("Processed " ++ PyStr.str_of_Z (line_count st + 1)
                                          ++ " lines from " ++ url))
                        else shard_log st)
                 = calls (shard_log st)).
  { destruct ((line_count st + 1) mod 50000 =? 0);
      [apply calls_log_append | reflexivity]. }
  destruct (3 <=? Z.of_nat (length (PyStr.split PyStr.TAB (PyStr.strip raw))));
    [|exact Hlog].
  destruct (PyStr.int _); [|exact Hlog].
  destruct (negb _ || negb _); exact Hlog.
Qed.

Lemma process_lines_calls (url : string) (n : Z) (lines : list string) (st : shard_vars) :
  calls (shard_log (fold_left (process_line url n) lines st)) = calls (shard_log st).
Proof.
  revert st. induction lines as [|raw lines IH]; intro st; simpl; [reflexivity|].
  now rewrite IH, process_line_calls.
Qed.

(** [process_shard] makes one call: the request. *)
Lemma process_shard_calls (resp : response) (url : string) (n : Z) :
  calls (snd (process_shard resp url n)) = [HttpGet url].
Proof.
  unfold process_shard. destruct resp as [e|text [e|]]; cbn [snd].
  - now rewrite calls_log_append.
  - now rewrite calls_log_append, process_lines_calls.
  - now rewrite calls_log_append, process_lines_calls.
Qed.

Lemma turn_events_calls (W : World) (bucket : string) (db : bool) (n : Z)
    (c : Checkpoints) (url : string) :
  calls (turn_events W bucket OUT_PREFIX db n c url) = turn_calls W bucket n c url.
Proof.
  unfold turn_events, turn_calls.
  destruct (checkpoint_done W c (shard_key n url)).
  - unfold skip_events. destruct (checkpoint_get_error W (shard_key n url)); reflexivity.
  - unfold process_events. rewrite !calls_app, process_shard_calls.
    unfold checkpoint_write_log.
    destruct (checkpoint_get_error W (shard_key n url)),
      (upload_error W (shard_file OUT_PREFIX n url)),
      (checkpoint_set_error W (shard_key n url)), db; reflexivity.
Qed.

Lemma flat_map_calls {A : Type} (f : A -> list event) (l : list A) :
  calls (flat_map f l) = flat_map (fun x => calls (f x)) l.
Proof.
  induction l as [|x l IH]; simpl; [reflexivity|].
  now rewrite calls_app, IH.
Qed.

Lemma shard_keys_NoDup_catalog (n : Z) :
  in_range_1_5 n -> NoDup (map (shard_key n) (build_shard_urls n)).
Proof.
  intro H. unfold shard_key, checkpoint_key.
  rewrite <- (map_map shard_id_of (fun sid => ngram_type_of n ++ "_" ++ sid)).
  apply Finite.Injective_map_NoDup; [|now apply shard_ids_NoDup].
  intros a b E. apply string_app_inv_head in E. now injection E.
Qed.

Lemma shard_loop_calls (W : World) (bucket : string) (db : bool) (n : Z)
    (c : Checkpoints) :
  in_range_1_5 n ->
  calls (events_of (shard_loop W bucket db n c))
  = flat_map (turn_calls W bucket n c) (build_shard_urls n).
Proof.
  intro Hn. unfold shard_loop.
  destruct (shard_loop_run W bucket OUT_PREFIX db n (build_shard_urls n)
              (shard_keys_NoDup_catalog n Hn) initial_type_vars c) as (_ & _ & He).
  rewrite He, flat_map_calls. apply flat_map_ext. intro url.
  apply turn_events_calls.
Qed.

Lemma shard_loop_aggregate (W : World) (bucket : string) (db : bool) (n : Z)
    (c : Checkpoints) :
  in_range_1_5 n ->
  type_aggregate (result_of (shard_loop W bucket db n c))
  = fold_left merge_shard
      (map (shard_results W n) (processed_shards W n c (build_shard_urls n))) [].
Proof.
  intro Hn. unfold shard_loop.
  destruct (shard_loop_run W bucket OUT_PREFIX db n (build_shard_urls n)
              (shard_keys_NoDup_catalog n Hn) initial_type_vars c) as (Ha & _).
  exact Ha.
Qed.

Lemma result_bind {A B : Type} (m : M A) (f : A -> M B) (c : Checkpoints) :
  result_of (bind m f c) = result_of (f (result_of (m c)) (store_of (m c))).
Proof. now rewrite bind_run. Qed.

Lemma store_bind {A B : Type} (m : M A) (f : A -> M B) (c : Checkpoints) :
  store_of (bind m f c) = store_of (f (result_of (m c)) (store_of (m c))).
Proof. now rewrite bind_run. Qed.

Lemma events_bind {A B : Type} (m : M A) (f : A -> M B) (c : Checkpoints) :
  events_of (bind m f c)
  = app (events_of (m c)) (events_of (f (result_of (m c)) (store_of (m c)))).
Proof. now rewrite bind_run. Qed.

Lemma result_ret {A : Type} (a : A) (c : Checkpoints) : result_of (ret a c) = a.
Proof. reflexivity. Qed.
Lemma store_ret {A : Type} (a : A) (c : Checkpoints) : store_of (ret a c) = c.
Proof. reflexivity. Qed.
Lemma events_ret {A : Type} (a : A) (c : Checkpoints) : events_of (ret a c) = [].
Proof. reflexivity. Qed.
Lemma store_log (level : log_level) (msg : string) (c : Checkpoints) :
  store_of (log level msg c) = c.
Proof. reflexivity. Qed.
Lemma events_log (level : log_level) (msg : string) (c : Checkpoints) :
  events_of (log level msg c) = [Log level msg].
Proof. reflexivity. Qed.
Lemma store_emit (e : event) (c : Checkpoints) : store_of (emit e c) = c.
Proof. reflexivity. Qed.
Lemma events_emit (e : event) (c : Checkpoints) : events_of (emit e c) = [e].
Proof. reflexivity. Qed.

Lemma store_upload (W : World) (bucket path : string) (data : json) (c : Checkpoints) :
  store_of (upload_to_storage W bucket path data c) = c.
Proof. now rewrite upload_to_storage_run. Qed.

Lemma calls_upload (W : World) (bucket path : string) (data : json) (c : Checkpoints) :
  calls (events_of (upload_to_storage W bucket path data c)) = [Upload bucket path data].
Proof.
  rewrite upload_to_storage_run. unfold events_of. cbn [snd].
  destruct (upload_error W path); reflexivity.
Qed.

Lemma calls_one_log (level : log_level) (msg : string) : calls [Log level msg] = [].
Proof. reflexivity. Qed.

Lemma calls_nil : calls [] = [].
Proof. reflexivity. Qed.

Create Rewrite HintDb run.
Create Rewrite HintDb calls.

#[local] Hint Rewrite @result_bind @store_bind @events_bind @result_ret @store_ret
  @events_ret store_log events_log store_emit events_emit store_upload : run.
#[local] Hint Rewrite calls_app calls_upload calls_one_log calls_nil app_nil_r
  app_nil_l : calls.

Ltac run_monad := repeat (progress (autorewrite with run; cbv beta)).

Lemma type_loop_body_run (W : World) (bucket : string) (db : bool)
    (outs : consolidated) (n : Z) (c : Checkpoints) :
  let r := type_loop_body W bucket OUT_PREFIX db outs n c in
  result_of r = next_outs outs n (type_top W bucket db n c)
  /\ store_of r = store_of (shard_loop W bucket db n c)
  /\ calls (events_of r)
     = app (calls (events_of (shard_loop W bucket db n c)))
         [Upload bucket (top_path n) (JsonList (type_top W bucket db n c))].
Proof.
  unfold type_loop_body. cbv zeta.
  fold initial_type_vars. fold (shard_loop W bucket db n).
  split; [|split].
  - run_monad. reflexivity.
  - run_monad. reflexivity.
  - run_monad. autorewrite with calls. reflexivity.
Qed.

Lemma result_for_each_cons {A V : Type} (x : A) (xs : list A) (body : V -> A -> M V)
    (vars : V) (c : Checkpoints) :
  result_of (for_each (x :: xs) body vars c)
  = result_of (for_each xs body (result_of (body vars x c)) (store_of (body vars x c))).
Proof. now rewrite for_each_cons. Qed.

Lemma store_for_each_cons {A V : Type} (x : A) (xs : list A) (body : V -> A -> M V)
    (vars : V) (c : Checkpoints) :
  store_of (for_each (x :: xs) body vars c)
  = store_of (for_each xs body (result_of (body vars x c)) (store_of (body vars x c))).
Proof. now rewrite for_each_cons. Qed.

Lemma events_for_each_cons {A V : Type} (x : A) (xs : list A) (body : V -> A -> M V)
    (vars : V) (c : Checkpoints) :
  events_of (for_each (x :: xs) body vars c)
  = app (events_of (body vars x c))
      (events_of (for_each xs body (result_of (body vars x c))
                    (store_of (body vars x c)))).
Proof. now rewrite for_each_cons. Qed.

Lemma types_loop_run (W : World) (bucket : string) (db : bool) (ns : list Z) :
  Forall in_range_1_5 ns ->
  forall (outs : consolidated) (c : Checkpoints),
  let r := for_each ns (type_loop_body W bucket OUT_PREFIX db) outs c in
  result_of r = types_outs W bucket db ns outs c
  /\ store_of r = types_store W bucket db ns c
  /\ calls (events_of r) = types_calls W bucket db ns c.
Proof.
  induction 1 as [|n ns Hn Hns IH]; intros outs c r.
  - subst r. simpl. auto.
  - subst r. rewrite result_for_each_cons, store_for_each_cons, events_for_each_cons.
    destruct (type_loop_body_run W bucket db outs n c) as (Hr & Hs & He).
    rewrite Hr, Hs.
    specialize (IH (next_outs outs n (type_top W bucket db n c))
                  (store_of (shard_loop W bucket db n c))).
    destruct IH as (IHr & IHs & IHe).
    split; [exact IHr|]. split; [exact IHs|].
    rewrite calls_app, He, IHe, (shard_loop_calls W bucket db n c Hn).
    reflexivity.
Qed.

Lemma orders_in_range : Forall in_range_1_5 (range 1 6).
Proof. repeat constructor; unfold in_range_1_5; simpl; lia. Qed.

Lemma init_firestore_run (W : World) (c : Checkpoints) :
  result_of (init_firestore W c) = client_ok W
  /\ store_of (init_firestore W c) = c
  /\ calls (events_of (init_firestore W c)) = [].
Proof.
  unfold init_firestore, client_ok.
  destruct (firestore_client_error W); repeat split; reflexivity.
Qed.

Lemma update_job_status_run (W : World) (c : Checkpoints) :
  store_of (update_job_status W c) = c
  /\ calls (events_of (update_job_status W c)) = [JobStatusSet].
Proof.
  unfold update_job_status.
  destruct (job_status_error W); split; reflexivity.
Qed.

Lemma write_consolidated_run (W : World) (bucket : string) (outs : consolidated)
    (c : Checkpoints) :
  store_of (write_consolidated W bucket OUT_PREFIX outs c) = c
  /\ calls (events_of (write_consolidated W bucket OUT_PREFIX outs c))
     = consolidated_calls bucket outs.
Proof.
  unfold write_consolidated, consolidated_calls.
  destruct (truthy (words_top outs)), (truthy (phrases_top_accum outs));
    split; run_monad; autorewrite with calls; reflexivity.
Qed.

(** The whole run in closed form: its final store and its calls. *)
Lemma run_pipeline_run (W : World) (bucket : string) (c0 : Checkpoints) :
  let db := client_ok W in
  store_of (run_pipeline W bucket c0) = types_store W bucket db (range 1 6) c0
  /\ calls (events_of (run_pipeline W bucket c0))
     = app (types_calls W bucket db (range 1 6) c0)
         (JobStatusSet
            :: consolidated_calls bucket
                 (types_outs W bucket db (range 1 6) initial_outs c0)).
Proof.
  intro db. unfold run_pipeline. cbv zeta. fold OUT_PREFIX. fold initial_outs.
  destruct (init_firestore_run W c0) as (Hir & His & Hie).
  split.
  - run_monad. rewrite Hir, His. fold db.
    destruct (types_loop_run W bucket db (range 1 6) orders_in_range initial_outs c0)
      as (Hr & Hs & He).
    destruct (update_job_status_run W
                (store_of (for_each (range 1 6)
                             (type_loop_body W bucket OUT_PREFIX db) initial_outs c0)))
      as (Hjs & _).
    rewrite Hjs.
    destruct (write_consolidated_run W bucket
                (result_of (for_each (range 1 6)
                              (type_loop_body W bucket OUT_PREFIX db) initial_outs c0))
                (store_of (for_each (range 1 6)
                             (type_loop_body W bucket OUT_PREFIX db) initial_outs c0)))
      as (Hws & _).
    rewrite Hws. exact Hs.
  - run_monad. rewrite Hir, His. fold db.
    destruct (types_loop_run W bucket db (range 1 6) orders_in_range initial_outs c0)
      as (Hr & Hs & He).
    destruct (update_job_status_run W
                (store_of (for_each (range 1 6)
                             (type_loop_body W bucket OUT_PREFIX db) initial_outs c0)))
      as (Hjs & Hje).
    rewrite Hjs.
    destruct (write_consolidated_run W bucket
                (result_of (for_each (range 1 6)
                              (type_loop_body W bucket OUT_PREFIX db) initial_outs c0))
                (store_of (for_each (range 1 6)
                             (type_loop_body W bucket OUT_PREFIX db) initial_outs c0)))
      as (_ & Hwe).
    rewrite !calls_app, Hie, He, Hje, Hwe, Hr. autorewrite with calls. reflexivity.
Qed.


Lemma main_run (W : World) (bucket : string) (c0 : Checkpoints) :
  bucket_of W bucket ->
  let db := client_ok W in
  store_of (main W c0) = types_store W bucket db (range 1 6) c0
  /\ calls (events_of (main W c0))
     = app (types_calls W bucket db (range 1 6) c0)
         (JobStatusSet
            :: consolidated_calls bucket
                 (types_outs W bucket db (range 1 6) initial_outs c0)).
Proof.
  intros [Henv Hne] db. unfold main. rewrite Henv.
  destruct bucket as [|ch rest]; [congruence|].
  destruct (run_pipeline_run W (String ch rest) c0) as (Hs & He).
  split; run_monad; [exact Hs|].
  autorewrite with calls. exact He.
Qed.

(** Without the bucket [main] stops at once: it logs and makes no call. *)
Lemma main_without_bucket (W : World) (c0 : Checkpoints) :
  env_FIREBASE_STORAGE_BUCKET W = None \/ env_FIREBASE_STORAGE_BUCKET W = Some "" ->
  store_of (main W c0) = c0 /\ calls (events_of (main W c0)) = [].
Proof.
  intros [H|H]; unfold main; rewrite H; split; reflexivity.
Qed.

(* ------------------------------------------------------------------ *)
(** ** Readings of the calls *)
(* ------------------------------------------------------------------ *)

Lemma flat_map_calls_ignore {B : Type} (f : event -> list B) (evs : list event) :
  (forall level msg, f (Log level msg) = []) ->
  flat_map f (calls evs) = flat_map f evs.
Proof.
  intro Hlog. induction evs as [|e evs IH]; [reflexivity|].
  destruct e; simpl; rewrite ?IH; try reflexivity. now rewrite Hlog.
Qed.

Lemma downloads_calls (evs : list event) : downloads (calls evs) = downloads evs.
Proof. now apply flat_map_calls_ignore. Qed.

Lemma upload_paths_calls (evs : list event) :
  upload_paths (calls evs) = upload_paths evs.
Proof. now apply flat_map_calls_ignore. Qed.

Lemma uploads_to_calls (bucket path : string) (evs : list event) :
  uploads_to bucket path (calls evs) = uploads_to bucket path evs.
Proof. now apply flat_map_calls_ignore. Qed.

Lemma checkpoint_writes_calls (evs : list event) :
  checkpoint_writes (calls evs) = checkpoint_writes evs.
Proof. now apply flat_map_calls_ignore. Qed.

Lemma In_downloads (url : string) (evs : list event) :
  In (HttpGet url) evs <-> In url (downloads evs).
Proof.
  unfold downloads. rewrite in_flat_map. split.
  - intro H. exists (HttpGet url). split; [exact H | now left].
  - intros (e & He & Hin). destruct e; try contradiction.
    destruct Hin as [<-|[]]. exact He.
Qed.

Lemma In_upload_paths (bucket path : string) (data : json) (evs : list event) :
  In (Upload bucket path data) evs -> In path (upload_paths evs).
Proof.
  intro H. unfold upload_paths. rewrite in_flat_map.
  exists (Upload bucket path data). split; [exact H | now left].
Qed.

Lemma In_checkpoint_writes (key url : string) (evs : list event) :
  In (CheckpointSet key url) evs -> In key (checkpoint_writes evs).
Proof.
  intro H. unfold checkpoint_writes. rewrite in_flat_map.
  exists (CheckpointSet key url). split; [exact H | now left].
Qed.

Lemma downloads_turns (W : World) (bucket : string) (n : Z) (c : Checkpoints)
    (urls : list string) :
  downloads (flat_map (turn_calls W bucket n c) urls) = processed_shards W n c urls.
Proof.
  induction urls as [|url urls IH]; [reflexivity|].
  cbn [flat_map]. unfold downloads in *. rewrite flat_map_app, IH.
  unfold processed_shards, turn_calls. cbn [filter].
  destruct (checkpoint_done W c (shard_key n url)); reflexivity.
Qed.

Lemma upload_paths_turns (W : World) (bucket : string) (n : Z) (c : Checkpoints)
    (urls : list string) :
  upload_paths (flat_map (turn_calls W bucket n c) urls)
  = map (shard_file OUT_PREFIX n) (processed_shards W n c urls).
Proof.
  induction urls as [|url urls IH]; [reflexivity|].
  cbn [flat_map]. unfold upload_paths in *. rewrite flat_map_app, IH.
  unfold processed_shards, turn_calls. cbn [filter].
  destruct (checkpoint_done W c (shard_key n url)); reflexivity.
Qed.

Lemma checkpoint_writes_turns (W : World) (bucket : string) (n : Z) (c : Checkpoints)
    (urls : list string) :
  checkpoint_writes (flat_map (turn_calls W bucket n c) urls)
  = map (shard_key n) (processed_shards W n c urls).
Proof.
  induction urls as [|url urls IH]; [reflexivity|].
  cbn [flat_map]. unfold checkpoint_writes in *. rewrite flat_map_app, IH.
  unfold processed_shards, turn_calls. cbn [filter].
  destruct (checkpoint_done W c (shard_key n url)); reflexivity.
Qed.

Lemma NoDup_map_In_inj {A B : Type} (f : A -> B) (l : list A) (x y : A) :
  NoDup (map f l) -> In x l -> In y l -> f x = f y -> x = y.
Proof.
  induction l as [|a l IH]; intros Hnd Hx Hy E; [contradiction|].
  inversion Hnd as [|? ? Hnotin Hnd']; subst.
  destruct Hx as [->|Hx], Hy as [->|Hy].
  - reflexivity.
  - exfalso. apply Hnotin. rewrite E. now apply in_map.
  - exfalso. apply Hnotin. rewrite <- E. now apply in_map.
  - now apply IH.
Qed.

Lemma shard_files_NoDup (n : Z) :
  in_range_1_5 n -> NoDup (map (shard_file OUT_PREFIX n) (build_shard_urls n)).
Proof.
  intro H. unfold shard_file.
  rewrite <- (map_map shard_id_of
                (fun sid => OUT_PREFIX ++ "/" ++ ngram_type_of n ++ "_" ++ sid
                            ++ "_filtered.json")).
  apply Finite.Injective_map_NoDup; [|now apply shard_ids_NoDup].
  intros a b E.
  apply string_app_inv_head in E. apply (string_app_inv_head "/") in E.
  apply string_app_inv_head in E. apply (string_app_inv_head "_") in E.
  now apply string_app_inv_tail in E.
Qed.

Lemma is_shard_done_result (W : World) (ngram_type shard_id : string) (db : bool)
    (c : Checkpoints) :
  result_of (is_shard_done W ngram_type shard_id db c)
  = checkpoint_done W c (checkpoint_key ngram_type shard_id).
Proof. now rewrite is_shard_done_run. Qed.

(** C5. In the loop over the shards of one order, started on any store:
    the catalog has no duplicate, the shards processed are those of the
    catalog that [is_shard_done] does not report done, each once and in
    catalog order; the type aggregate is the merge of the results of
    exactly these shards, once each; exactly these are downloaded and
    have their per-shard file uploaded.  A shard that [is_shard_done]
    reports done is not among them: it is not downloaded, its file is not
    uploaded, nothing of it is merged.  And at the turn of any shard, if
    [is_shard_done] answers true on the store of that moment, the turn
    leaves the aggregate and the store as they are and its only call is
    the read of the checkpoint. *)
Theorem shard_merged_at_most_once (W : World) (bucket : string) (db : bool) (n : Z)
    (c : Checkpoints) (Hn : in_range_1_5 n) :
  let urls := build_shard_urls n in
  let processed := processed_shards W n c urls in
  let r := shard_loop W bucket db n c in
  NoDup urls
  /\ NoDup processed
  /\ type_aggregate (result_of r)
     = fold_left merge_shard (map (shard_results W n) processed) []
  /\ downloads (events_of r) = processed
  /\ upload_paths (events_of r) = map (shard_file OUT_PREFIX n) processed
  /\ (forall url, In url urls ->
        result_of (is_shard_done W (ngram_type_of n) (shard_id_of url) db c) = true ->
        ~ In url processed
        /\ ~ In (HttpGet url) (events_of r)
        /\ forall data,
             ~ In (Upload bucket (shard_file OUT_PREFIX n url) data) (events_of r))
  /\ (forall url vars c',
        result_of (is_shard_done W (ngram_type_of n) (shard_id_of url) db c') = true ->
        let turn := shard_loop_body W bucket OUT_PREFIX db n (ngram_type_of n) vars url c' in
        type_aggregate (result_of turn) = type_aggregate vars
        /\ store_of turn = c'
        /\ calls (events_of turn) = [CheckpointGet (shard_key n url)]).
Proof.
  intros urls processed r.
  assert (Hnd : NoDup urls) by apply build_shard_urls_NoDup.
  assert (Hndp : NoDup processed) by now apply NoDup_filter.
  assert (Hdown : downloads (events_of r) = processed).
  { subst r. rewrite <- downloads_calls, (shard_loop_calls W bucket db n c Hn).
    apply downloads_turns. }
  assert (Hup : upload_paths (events_of r) = map (shard_file OUT_PREFIX n) processed).
  { subst r. rewrite <- upload_paths_calls, (shard_loop_calls W bucket db n c Hn).
    apply upload_paths_turns. }
  split; [exact Hnd|]. split; [exact Hndp|].
  split; [now apply shard_loop_aggregate|].
  split; [exact Hdown|]. split; [exact Hup|]. split.
  - intros url Hin Hdone. rewrite is_shard_done_result in Hdone.
    fold (shard_key n url) in Hdone.
    assert (Hnot : ~ In url processed).
    { unfold processed, processed_shards. rewrite filter_In, Hdone.
      intros [_ H]. discriminate. }
    split; [exact Hnot|]. split.
    + rewrite In_downloads, Hdown. exact Hnot.
    + intros data Hdata. apply In_upload_paths in Hdata. rewrite Hup in Hdata.
      apply in_map_iff in Hdata. destruct Hdata as (u & Heq & Hu).
      assert (Hu' : In u urls).
      { unfold processed, processed_shards in Hu. apply filter_In in Hu. tauto. }
      apply Hnot.
      rewrite <- (NoDup_map_In_inj (shard_file OUT_PREFIX n) urls u url
                    (shard_files_NoDup n Hn) Hu' Hin Heq).
      exact Hu.
  - intros url vars c' Hdone turn. rewrite is_shard_done_result in Hdone.
    fold (shard_key n url) in Hdone. subst turn.
    rewrite shard_loop_body_run, Hdone.
    unfold result_of, store_of, events_of. cbn [fst snd].
    split; [reflexivity|]. split; [reflexivity|].
    pose proof (turn_events_calls W bucket db n c' url) as Ht.
    unfold turn_events, turn_calls in Ht. rewrite Hdone in Ht. exact Ht.
Qed.

Lemma shard_merged_at_most_once_witness :
  in_range_1_5 1
  /\ downloads (events_of (shard_loop world_all_fail "bucket" true 1 []))
     = processed_shards world_all_fail 1 [] (build_shard_urls 1).
Proof.
  assert (H : in_range_1_5 1) by (unfold in_range_1_5; lia).
  split; [exact H|].
  destruct (shard_merged_at_most_once world_all_fail "bucket" true 1 [] H)
    as (_ & _ & _ & Hdown & _).
  exact Hdown.
Defined.

(* ------------------------------------------------------------------ *)
(** ** A shard whose stream fails *)
(* ------------------------------------------------------------------ *)

Lemma last_list_append {A : Type} (l : list A) (x d : A) :
  last (list_append l x) d = x.
Proof. unfold list_append. apply last_last. Qed.

Lemma process_shard_failed (resp : response) (url : string) (n : Z) :
  response_failed resp = true ->
  fst (process_shard resp url n) = []
  /\ exists e, last (snd (process_shard resp url n)) (Sleep 0)
               = Log ERROR ("Error processing " ++ url ++ ": " ++ e).
Proof.
  intro H. unfold process_shard. destruct resp as [e|text [e|]]; try discriminate;
    cbn [fst snd]; (split; [reflexivity|]); exists e; apply last_list_append.
Qed.

Lemma merge_shard_nil (type_agg : Dict) : merge_shard type_agg [] = type_agg.
Proof. reflexivity. Qed.

(** C4. When the request or the stream of a shard fails, [process_shard]
    does not fail: it returns the empty map and its last act is to log
    the error.  A shard with an empty stream returns the empty map too,
    and the turn of the orchestrator is the same for both: same
    variables, same store, same calls (the failed shard adds nothing to
    the aggregate).  The loop then goes on with the next shards from the
    state the turn leaves. *)
Theorem process_shard_swallows_failure (W : World) (bucket : string) (db : bool)
    (n : Z) (url : string) (vars : type_vars) (c : Checkpoints) (rest : list string)
    (Hfail : response_failed (http_response W url) = true) :
  let W' := with_response W url (Stream "" None) in
  let turn := shard_loop_body W bucket OUT_PREFIX db n (ngram_type_of n) vars url c in
  let turn' := shard_loop_body W' bucket OUT_PREFIX db n (ngram_type_of n) vars url c in
  let loop :=
    for_each (url :: rest) (shard_loop_body W bucket OUT_PREFIX db n (ngram_type_of n))
      vars c in
  let after :=
    for_each rest (shard_loop_body W bucket OUT_PREFIX db n (ngram_type_of n))
      (result_of turn) (store_of turn) in
  fst (process_shard (http_response W url) url n) = []
  /\ (exists e, last (snd (process_shard (http_response W url) url n)) (Sleep 0)
                = Log ERROR ("Error processing " ++ url ++ ": " ++ e))
  /\ response_failed (http_response W' url) = false
  /\ fst (process_shard (http_response W' url) url n) = []
  /\ result_of turn = result_of turn'
  /\ store_of turn = store_of turn'
  /\ calls (events_of turn) = calls (events_of turn')
  /\ type_aggregate (result_of turn) = type_aggregate vars
  /\ result_of loop = result_of after
  /\ store_of loop = store_of after
  /\ events_of loop = app (events_of turn) (events_of after).
Proof.
  intros W' turn turn' loop after.
  destruct (process_shard_failed (http_response W url) url n Hfail) as (Hempty & Hlog).
  assert (Hresp' : http_response W' url = Stream "" None).
  { unfold W', with_response. cbn [http_response]. now rewrite String.eqb_refl. }
  assert (Hres : shard_results W n url = []) by exact Hempty.
  assert (Hres' : shard_results W' n url = []).
  { unfold shard_results. rewrite Hresp'. reflexivity. }
  split; [exact Hempty|]. split; [exact Hlog|].
  split; [now rewrite Hresp'|]. split; [exact Hres'|].
  assert (Hturn : turn
                  = if checkpoint_done W c (shard_key n url)
                    then ({| type_aggregate := type_aggregate vars;
                             processed_count := processed_count vars;
                             skipped_count := skipped_count vars + 1 |},
                          c, skip_events W n url)
                    else ({| type_aggregate := type_aggregate vars;
                             processed_count := processed_count vars + 1;
                             skipped_count := skipped_count vars |},
                          store_after_set W c (shard_key n url) url,
                          process_events W bucket OUT_PREFIX db n url)).
  { unfold turn. rewrite shard_loop_body_run, Hres. reflexivity. }
  assert (Hturn' : turn'
                   = if checkpoint_done W c (shard_key n url)
                     then ({| type_aggregate := type_aggregate vars;
                              processed_count := processed_count vars;
                              skipped_count := skipped_count vars + 1 |},
                           c, skip_events W' n url)
                     else ({| type_aggregate := type_aggregate vars;
                              processed_count := processed_count vars + 1;
                              skipped_count := skipped_count vars |},
                           store_after_set W c (shard_key n url) url,
                           process_events W' bucket OUT_PREFIX db n url)).
  { unfold turn'. rewrite shard_loop_body_run, Hres'. reflexivity. }
  assert (Hcalls : calls (events_of turn) = calls (events_of turn')).
  { pose proof (turn_events_calls W bucket db n c url) as Ht.
    pose proof (turn_events_calls W' bucket db n c url) as Ht'.
    unfold turn_events, turn_calls in Ht, Ht'. rewrite Hres in Ht. rewrite Hres' in Ht'.
    change (checkpoint_done W' c (shard_key n url))
      with (checkpoint_done W c (shard_key n url)) in Ht'.
    rewrite Hturn, Hturn'.
    destruct (checkpoint_done W c (shard_key n url));
      unfold events_of; cbn [snd]; now rewrite Ht, Ht'. }
  split; [rewrite Hturn, Hturn';
          destruct (checkpoint_done W c (shard_key n url)); reflexivity|].
  split; [rewrite Hturn, Hturn';
          destruct (checkpoint_done W c (shard_key n url)); reflexivity|].
  split; [exact Hcalls|].
  split; [rewrite Hturn;
          destruct (checkpoint_done W c (shard_key n url)); reflexivity|].
  unfold loop, after, turn.
  split; [apply result_for_each_cons|].
  split; [apply store_for_each_cons | apply events_for_each_cons].
Qed.

Lemma process_shard_swallows_failure_witness :
  response_failed (http_response world_all_fail url_1a) = true
  /\ fst (process_shard (http_response world_all_fail url_1a) url_1a 1) = [].
Proof.
  assert (H : response_failed (http_response world_all_fail url_1a) = true)
    by reflexivity.
  split; [exact H|].
  destruct (process_shard_swallows_failure world_all_fail "bucket" true 1 url_1a
              initial_type_vars [] [] H) as (Hempty & _).
  exact Hempty.
Defined.

(* ------------------------------------------------------------------ *)
(** ** What a run leaves in the checkpoint store *)
(* ------------------------------------------------------------------ *)

Lemma stored_done_set_keep (W : World) (c : Checkpoints) (k u key : string) :
  stored_done c key = true -> stored_done (store_after_set W c k u) key = true.
Proof.
  intro H. unfold store_after_set. destruct (checkpoint_set_error W k); [exact H|].
  unfold stored_done. destruct (String.eqb_spec k key) as [->|Hne].
  - now rewrite store_get_set_same.
  - rewrite store_get_set_other by exact Hne. exact H.
Qed.

Lemma stored_done_set_new (W : World) (c : Checkpoints) (k u : string) :
  checkpoint_set_error W k = None -> stored_done (store_after_set W c k u) k = true.
Proof.
  intro H. unfold store_after_set, stored_done. rewrite H.
  now rewrite store_get_set_same.
Qed.

Lemma checkpoint_done_stored (W : World) (c : Checkpoints) (key : string) :
  checkpoint_done W c key = true -> stored_done c key = true.
Proof.
  unfold checkpoint_done, stored_done.
  destruct (checkpoint_get_error W key); [discriminate | tauto].
Qed.

Lemma writes_keep (W : World) (n : Z) (urls : list string) (c : Checkpoints)
    (key : string) :
  stored_done c key = true ->
  stored_done
    (fold_left (fun c' url => store_after_set W c' (shard_key n url) url) urls c) key
  = true.
Proof.
  revert c. induction urls as [|u urls IH]; intros c H; simpl; [exact H|].
  apply IH. now apply stored_done_set_keep.
Qed.

Lemma writes_mark (W : World) (n : Z) (urls : list string) (c : Checkpoints)
    (url : string) :
  In url urls ->
  checkpoint_set_error W (shard_key n url) = None ->
  stored_done
    (fold_left (fun c' url' => store_after_set W c' (shard_key n url') url') urls c)
    (shard_key n url)
  = true.
Proof.
  revert c. induction urls as [|u urls IH]; intros c Hin Hset; [contradiction|].
  simpl. destruct Hin as [->|Hin].
  - apply writes_keep. now apply stored_done_set_new.
  - now apply IH.
Qed.

Lemma shard_loop_store (W : World) (bucket : string) (db : bool) (n : Z)
    (c : Checkpoints) :
  in_range_1_5 n ->
  store_of (shard_loop W bucket db n c)
  = fold_left (fun c' url => store_after_set W c' (shard_key n url) url)
      (processed_shards W n c (build_shard_urls n)) c.
Proof.
  intro Hn. unfold shard_loop.
  destruct (shard_loop_run W bucket OUT_PREFIX db n (build_shard_urls n)
              (shard_keys_NoDup_catalog n Hn) initial_type_vars c) as (_ & Hs & _).
  exact Hs.
Qed.

Lemma shard_loop_keeps (W : World) (bucket : string) (db : bool) (n : Z)
    (c : Checkpoints) (key : string) :
  in_range_1_5 n ->
  stored_done c key = true ->
  stored_done (store_of (shard_loop W bucket db n c)) key = true.
Proof.
  intros Hn H. rewrite shard_loop_store by exact Hn. now apply writes_keep.
Qed.

Lemma shard_loop_marks (W : World) (bucket : string) (db : bool) (n : Z)
    (c : Checkpoints) (url : string) :
  in_range_1_5 n ->
  In url (build_shard_urls n) ->
  checkpoint_set_error W (shard_key n url) = None ->
  stored_done (store_of (shard_loop W bucket db n c)) (shard_key n url) = true.
Proof.
  intros Hn Hin Hset. rewrite shard_loop_store by exact Hn.
  destruct (checkpoint_done W c (shard_key n url)) eqn:Hdone.
  - apply writes_keep. now apply checkpoint_done_stored with (W := W).
  - apply writes_mark; [|exact Hset].
    unfold processed_shards. rewrite filter_In, Hdone. now split.
Qed.

Lemma types_store_keeps (W : World) (bucket : string) (db : bool) (ns : list Z)
    (key : string) :
  Forall in_range_1_5 ns ->
  forall c, stored_done c key = true ->
            stored_done (types_store W bucket db ns c) key = true.
Proof.
  induction 1 as [|n ns Hn _ IH]; intros c H; simpl; [exact H|].
  apply IH. now apply shard_loop_keeps.
Qed.

Lemma types_store_marks (W : World) (bucket : string) (db : bool) (ns : list Z)
    (n : Z) (url : string) :
  Forall in_range_1_5 ns ->
  In n ns ->
  In url (build_shard_urls n) ->
  checkpoint_set_error W (shard_key n url) = None ->
  forall c, stored_done (types_store W bucket db ns c) (shard_key n url) = true.
Proof.
  induction 1 as [|m ns Hm Hns IH]; intros Hin Hurl Hset c; [contradiction|].
  simpl. destruct Hin as [->|Hin].
  - apply types_store_keeps; [exact Hns|]. now apply shard_loop_marks.
  - now apply IH.
Qed.

Lemma in_range_orders (n : Z) : in_range_1_5 n -> In n (range 1 6).
Proof.
  intro H. apply range_1_5_cases in H.
  destruct H as [->|[->|[->|[->| ->]]]]; simpl; tauto.
Qed.

(** With a store that takes the write, every shard of the catalog is
    recorded done when [main] ends, whatever its request met. *)
Lemma main_marks_done (W : World) (bucket : string) (c0 : Checkpoints) (n : Z)
    (url : string) :
  bucket_of W bucket ->
  in_range_1_5 n ->
  In url (build_shard_urls n) ->
  checkpoint_set_error W (shard_key n url) = None ->
  stored_done (store_of (main W c0)) (shard_key n url) = true.
Proof.
  intros Hb Hn Hurl Hset.
  destruct (main_run W bucket c0 Hb) as (Hs & _). rewrite Hs.
  apply types_store_marks; [apply orders_in_range | now apply in_range_orders | | ];
    assumption.
Qed.


Lemma url_1a_in_catalog : In url_1a (build_shard_urls 1).
Proof. apply mem_string_In. vm_compute. reflexivity. Qed.

Lemma world_all_fail_bucket : bucket_of world_all_fail "bucket".
Proof. split; [reflexivity | discriminate]. Qed.



(* ------------------------------------------------------------------ *)
(** ** What a run uploads, and in which order it ends *)
(* ------------------------------------------------------------------ *)

Lemma endswith_refl (s : string) : endswith s s = true.
Proof. destruct s; simpl; now rewrite ?String.eqb_refl, ?Ascii.eqb_refl. Qed.

Lemma endswith_cons (suffix : string) (c : ascii) (s : string) :
  endswith suffix s = true -> endswith suffix (String c s) = true.
Proof. intro H. simpl. rewrite H. apply orb_true_r. Qed.

Lemma endswith_app (suffix a b : string) :
  endswith suffix b = true -> endswith suffix (a ++ b) = true.
Proof.
  intro H. induction a as [|c a IH]; [exact H|].
  simpl append. now apply endswith_cons.
Qed.

Lemma shard_file_suffix (out_prefix : string) (n : Z) (url : string) :
  endswith "_filtered.json" (shard_file out_prefix n url) = true.
Proof.
  unfold shard_file.
  apply endswith_app, (endswith_app _ "/"), endswith_app, (endswith_app _ "_"),
    endswith_app, endswith_refl.
Qed.

Lemma shard_file_neq (out_prefix : string) (n : Z) (url path : string) :
  endswith "_filtered.json" path = false ->
  String.eqb (shard_file out_prefix n url) path = false.
Proof.
  intro H. destruct (String.eqb_spec (shard_file out_prefix n url) path) as [E|];
    [|reflexivity].
  rewrite <- E, shard_file_suffix in H. discriminate.
Qed.

Lemma uploads_to_app (bucket path : string) (l1 l2 : list event) :
  uploads_to bucket path (app l1 l2)
  = app (uploads_to bucket path l1) (uploads_to bucket path l2).
Proof. apply flat_map_app. Qed.

Lemma uploads_to_turns (W : World) (bucket path : string) (n : Z) (c : Checkpoints)
    (urls : list string) :
  endswith "_filtered.json" path = false ->
  uploads_to bucket path (flat_map (turn_calls W bucket n c) urls) = [].
Proof.
  intro H. induction urls as [|url urls IH]; [reflexivity|].
  cbn [flat_map]. rewrite uploads_to_app, IH, app_nil_r.
  unfold turn_calls. destruct (checkpoint_done W c (shard_key n url)); [reflexivity|].
  unfold uploads_to. cbn [flat_map app].
  now rewrite (shard_file_neq OUT_PREFIX n url path H), andb_false_r.
Qed.

Lemma uploads_to_type_calls (W : World) (bucket path : string) (db : bool) (n : Z)
    (c : Checkpoints) :
  endswith "_filtered.json" path = false ->
  uploads_to bucket path (type_calls W bucket db n c)
  = if String.eqb (top_path n) path
    then [JsonList (type_top W bucket db n c)] else [].
Proof.
  intro H. unfold type_calls. rewrite uploads_to_app, uploads_to_turns by exact H.
  unfold uploads_to. cbn [flat_map app]. rewrite String.eqb_refl. cbn [andb].
  destruct (String.eqb (top_path n) path); reflexivity.
Qed.

Lemma uploads_to_consolidated (bucket path : string) (outs : consolidated) :
  uploads_to bucket path (JobStatusSet :: consolidated_calls bucket outs)
  = app (if String.eqb words_path path && truthy (words_top outs)
         then [JsonList (words_top outs)] else [])
        (if String.eqb phrases_path path && truthy (phrases_top_accum outs)
         then [JsonList (phrases_top_accum outs)] else []).
Proof.
  unfold consolidated_calls, uploads_to. cbn [flat_map app].
  rewrite flat_map_app.
  destruct (truthy (words_top outs)), (truthy (phrases_top_accum outs));
    cbn [flat_map app]; rewrite ?String.eqb_refl; cbn [andb];
    rewrite ?andb_true_r, ?andb_false_r, ?app_nil_r; reflexivity.
Qed.

(** The consolidated outputs [main] holds after the five orders. *)
Lemma final_outs (W : World) (bucket : string) (c0 : Checkpoints) :
  types_outs W bucket (client_ok W) (range 1 6) initial_outs c0
  = {| words_top := top_of W bucket c0 1;
       phrases_top_accum :=
         app (top_of W bucket c0 2)
           (app (top_of W bucket c0 3)
              (app (top_of W bucket c0 4) (top_of W bucket c0 5))) |}.
Proof.
  unfold top_of, store_before.
  change (range 1 6) with [1; 2; 3; 4; 5].
  change (range 1 1) with (@nil Z). change (range 1 2) with [1].
  change (range 1 3) with [1; 2]. change (range 1 4) with [1; 2; 3].
  change (range 1 5) with [1; 2; 3; 4].
  cbn [types_outs types_store]. unfold next_outs, initial_outs.
  cbn [Z.eqb Pos.eqb words_top phrases_top_accum app].
  now rewrite <- !app_assoc.
Qed.

Ltac eval_path_eqb :=
  repeat match goal with
         | |- context [String.eqb ?a ?b] =>
             let v := eval vm_compute in (String.eqb a b) in
             change (String.eqb a b) with v
         end.

Lemma main_uploads_path (W : World) (bucket : string) (c0 : Checkpoints)
    (path : string) :
  bucket_of W bucket ->
  endswith "_filtered.json" path = false ->
  let db := client_ok W in
  let outs := types_outs W bucket db (range 1 6) initial_outs c0 in
  uploads_to bucket path (events_of (main W c0))
  = app (if String.eqb (top_path 1) path then [JsonList (top_of W bucket c0 1)] else [])
     (app (if String.eqb (top_path 2) path then [JsonList (top_of W bucket c0 2)] else [])
     (app (if String.eqb (top_path 3) path then [JsonList (top_of W bucket c0 3)] else [])
     (app (if String.eqb (top_path 4) path then [JsonList (top_of W bucket c0 4)] else [])
     (app (if String.eqb (top_path 5) path then [JsonList (top_of W bucket c0 5)] else [])
     (app (if String.eqb words_path path && truthy (words_top outs)
           then [JsonList (words_top outs)] else [])
          (if String.eqb phrases_path path && truthy (phrases_top_accum outs)
           then [JsonList (phrases_top_accum outs)] else [])))))).
Proof.
  intros Hb Hp db outs.
  destruct (main_run W bucket c0 Hb) as (_ & He).
  rewrite <- uploads_to_calls, He, uploads_to_app, uploads_to_consolidated.
  fold db. fold outs.
  unfold top_of, store_before. fold db.
  change (range 1 6) with [1; 2; 3; 4; 5].
  change (range 1 1) with (@nil Z). change (range 1 2) with [1].
  change (range 1 3) with [1; 2]. change (range 1 4) with [1; 2; 3].
  change (range 1 5) with [1; 2; 3; 4].
  cbn [types_calls types_store].
  rewrite !uploads_to_app, !uploads_to_type_calls by exact Hp.
  cbn [uploads_to flat_map]. rewrite app_nil_r, <- !app_assoc. reflexivity.
Qed.

(** What [main] uploads to the five per-type paths and the two
    consolidated paths. *)
Lemma main_uploads (W : World) (bucket : string) (c0 : Checkpoints) :
  bucket_of W bucket ->
  let E := events_of (main W c0) in
  let top := top_of W bucket c0 in
  let phrases := app (top 2) (app (top 3) (app (top 4) (top 5))) in
  (forall n, in_range_1_5 n -> uploads_to bucket (top_path n) E = [JsonList (top n)])
  /\ uploads_to bucket words_path E
     = (if truthy (top 1) then [JsonList (top 1)] else [])
  /\ uploads_to bucket phrases_path E
     = (if truthy phrases then [JsonList phrases] else []).
Proof.
  intros Hb E top phrases. subst E.
  split; [|split].
  - intros n Hn. apply range_1_5_cases in Hn.
    destruct Hn as [->|[->|[->|[->| ->]]]];
      match goal with
      | |- uploads_to _ ?p _ = _ =>
          rewrite (main_uploads_path W bucket c0 p Hb eq_refl)
      end;
      eval_path_eqb; cbn [andb app]; reflexivity.
  - rewrite (main_uploads_path W bucket c0 words_path Hb eq_refl), final_outs.
    eval_path_eqb. cbn [andb app words_top]. fold top.
    destruct (truthy (top 1)); reflexivity.
  - rewrite (main_uploads_path W bucket c0 phrases_path Hb eq_refl), final_outs.
    eval_path_eqb. cbn [andb app phrases_top_accum]. fold top. fold phrases.
    destruct (truthy phrases); reflexivity.
Qed.

Lemma fold_merge_empty (shards : list Dict) (type_agg : Dict) :
  Forall (fun d => d = []) shards -> fold_left merge_shard shards type_agg = type_agg.
Proof.
  intro H. revert type_agg. induction H as [|d shards Hd _ IH]; intro type_agg;
    [reflexivity|].
  simpl. subst d. apply IH.
Qed.

Lemma filter_and_rank_nil (n k : Z) : filter_and_rank [] n k = [].
Proof.
  unfold filter_and_rank, slice_to. cbn [above_threshold filter sorted_desc length].
  destruct (0 <=? k); now rewrite firstn_nil.
Qed.

(** An order all of whose shards return the empty map ranks nothing. *)
Lemma type_top_empty (W : World) (bucket : string) (db : bool) (n : Z)
    (c : Checkpoints) :
  in_range_1_5 n ->
  (forall url, In url (build_shard_urls n) -> shard_results W n url = []) ->
  type_top W bucket db n c = [].
Proof.
  intros Hn Hall. unfold type_top.
  rewrite (shard_loop_aggregate W bucket db n c Hn), fold_merge_empty;
    [apply filter_and_rank_nil|].
  apply Forall_forall. intros d Hd. apply in_map_iff in Hd.
  destruct Hd as (url & <- & Hurl). apply Hall.
  unfold processed_shards in Hurl. apply filter_In in Hurl. tauto.
Qed.

Lemma world_cat_bucket : bucket_of world_cat "bucket".
Proof. split; [reflexivity | discriminate]. Qed.

Lemma world_cat_top_1 :
  top_of world_cat "bucket" [] 1 = [ {| gram := "cat"; freq := 156000 |} ].
Proof. vm_compute. reflexivity. Qed.

(** C7, as the code has it.  [main] uploads the ranked list of each
    order to its [{n}gram_top.json].  When the list of order 1 is not
    empty, it uploads to [words_top.json], once, that same list; when it
    is empty, it uploads nothing to [words_top.json], while
    [1gram_top.json] holds the empty list.  When the lists of orders
    2..5, appended in that order and not sorted again, are not empty, it
    uploads to [phrases_top.json], once, that appended list; when they
    are empty it uploads nothing there. *)
Theorem consolidated_from_tops (W : World) (bucket : string) (c0 : Checkpoints)
    (Hb : bucket_of W bucket) :
  let E := events_of (main W c0) in
  exists t1 t2 t3 t4 t5 : list RankedGram,
    uploads_to bucket (top_path 1) E = [JsonList t1]
    /\ uploads_to bucket (top_path 2) E = [JsonList t2]
    /\ uploads_to bucket (top_path 3) E = [JsonList t3]
    /\ uploads_to bucket (top_path 4) E = [JsonList t4]
    /\ uploads_to bucket (top_path 5) E = [JsonList t5]
    /\ (t1 <> [] ->
        uploads_to bucket words_path E = uploads_to bucket (top_path 1) E)
    /\ (t1 = [] -> uploads_to bucket words_path E = [])
    /\ (app t2 (app t3 (app t4 t5)) <> [] ->
        uploads_to bucket phrases_path E = [JsonList (app t2 (app t3 (app t4 t5)))])
    /\ (app t2 (app t3 (app t4 t5)) = [] -> uploads_to bucket phrases_path E = []).
Proof.
  intro E. destruct (main_uploads W bucket c0 Hb) as (Htop & Hwords & Hphrases).
  fold E in Htop, Hwords, Hphrases.
  exists (top_of W bucket c0 1), (top_of W bucket c0 2), (top_of W bucket c0 3),
    (top_of W bucket c0 4), (top_of W bucket c0 5).
  repeat (split; [apply Htop; unfold in_range_1_5; lia|]).
  rewrite Hwords, Hphrases, (Htop 1) by (unfold in_range_1_5; lia).
  generalize (top_of W bucket c0 1),
    (app (top_of W bucket c0 2)
       (app (top_of W bucket c0 3) (app (top_of W bucket c0 4) (top_of W bucket c0 5)))).
  intros words phrases.
  split; [intro H; destruct words; [congruence | reflexivity]|].
  split; [intros ->; reflexivity|].
  split; [intro H; destruct phrases; [congruence | reflexivity]|].
  intros ->. reflexivity.
Qed.

Lemma consolidated_from_tops_witness :
  bucket_of world_cat "bucket"
  /\ uploads_to "bucket" words_path (events_of (main world_cat []))
     = [JsonList [ {| gram := "cat"; freq := 156000 |} ]].
Proof.
  assert (Hn : in_range_1_5 1) by (unfold in_range_1_5; lia).
  split; [exact world_cat_bucket|].
  destruct (consolidated_from_tops world_cat "bucket" [] world_cat_bucket)
    as (t1 & t2 & t3 & t4 & t5 & H1 & _ & _ & _ & _ & Hw & _).
  destruct (main_uploads world_cat "bucket" [] world_cat_bucket) as (Htop & _).
  rewrite (Htop 1 Hn), world_cat_top_1 in H1. injection H1 as <-.
  rewrite (Hw ltac:(discriminate)), (Htop 1 Hn), world_cat_top_1. reflexivity.
Defined.

(** C7 as it is stated fails where the list of order 1 is empty: in a
    world where every request fails, the run uploads the empty list to
    [1gram_top.json] and nothing to [words_top.json] (and nothing to
    [phrases_top.json]), so the words file is not the file of order 1. *)
Lemma words_file_not_written_when_empty :
  uploads_to "bucket" (top_path 1) (events_of (main world_all_fail []))
  = [JsonList []]
  /\ uploads_to "bucket" words_path (events_of (main world_all_fail [])) = []
  /\ uploads_to "bucket" phrases_path (events_of (main world_all_fail [])) = []
  /\ uploads_to "bucket" words_path (events_of (main world_all_fail []))
     <> uploads_to "bucket" (top_path 1) (events_of (main world_all_fail [])).
Proof.
  assert (Hempty : forall n, in_range_1_5 n ->
                             top_of world_all_fail "bucket" [] n = []).
  { intros n Hn. apply type_top_empty; [exact Hn | reflexivity]. }
  destruct (main_uploads world_all_fail "bucket" [] world_all_fail_bucket)
    as (Htop & Hwords & Hphrases).
  assert (H1 : uploads_to "bucket" (top_path 1) (events_of (main world_all_fail []))
               = [JsonList []]).
  { rewrite (Htop 1), (Hempty 1) by (unfold in_range_1_5; lia). reflexivity. }
  assert (Hw : uploads_to "bucket" words_path (events_of (main world_all_fail []))
               = []).
  { rewrite Hwords, (Hempty 1) by (unfold in_range_1_5; lia). reflexivity. }
  split; [exact H1|]. split; [exact Hw|]. split.
  - rewrite Hphrases, (Hempty 2), (Hempty 3), (Hempty 4), (Hempty 5)
      by (unfold in_range_1_5; lia).
    reflexivity.
  - rewrite H1, Hw. discriminate.
Qed.

(** C10. [main] uploads the ranked list of each of the five orders to its
    [{n}gram_top.json] once, whatever the list, empty or not.  It
    uploads [words_top.json] only when the list of order 1 is not empty,
    and [phrases_top.json] only when the lists of orders 2..5 appended
    are not empty: when they are empty nothing is uploaded to the path. *)
Theorem top_files_always_consolidated_when_nonempty (W : World) (bucket : string)
    (c0 : Checkpoints) (Hb : bucket_of W bucket) :
  let E := events_of (main W c0) in
  let top := top_of W bucket c0 in
  let phrases := app (top 2) (app (top 3) (app (top 4) (top 5))) in
  (forall n, in_range_1_5 n -> uploads_to bucket (top_path n) E = [JsonList (top n)])
  /\ (top 1 = [] -> uploads_to bucket words_path E = [])
  /\ (top 1 <> [] -> uploads_to bucket words_path E = [JsonList (top 1)])
  /\ (phrases = [] -> uploads_to bucket phrases_path E = [])
  /\ (phrases <> [] -> uploads_to bucket phrases_path E = [JsonList phrases]).
Proof.
  intros E top phrases.
  destruct (main_uploads W bucket c0 Hb) as (Htop & Hwords & Hphrases).
  fold E in Htop, Hwords, Hphrases. fold top in Htop, Hwords, Hphrases.
  fold phrases in Hphrases.
  split; [exact Htop|].
  split; [intro H0; rewrite Hwords, H0; reflexivity|].
  split; [intro H0; rewrite Hwords; destruct (top 1); [congruence | reflexivity]|].
  split; [intro H0; rewrite Hphrases, H0; reflexivity|].
  intro H0. rewrite Hphrases. destruct phrases; [congruence | reflexivity].
Qed.

Lemma top_files_always_consolidated_when_nonempty_witness :
  bucket_of world_all_fail "bucket"
  /\ top_of world_all_fail "bucket" [] 1 = []
  /\ uploads_to "bucket" (top_path 1) (events_of (main world_all_fail []))
     = [JsonList []]
  /\ uploads_to "bucket" words_path (events_of (main world_all_fail [])) = [].
Proof.
  assert (Hn : in_range_1_5 1) by (unfold in_range_1_5; lia).
  assert (Htop : top_of world_all_fail "bucket" [] 1 = []).
  { apply type_top_empty; [exact Hn | reflexivity]. }
  split; [exact world_all_fail_bucket|]. split; [exact Htop|].
  destruct (top_files_always_consolidated_when_nonempty world_all_fail "bucket" []
              world_all_fail_bucket) as (Hfiles & Hwords & _).
  split; [rewrite (Hfiles 1 Hn), Htop; reflexivity | exact (Hwords Htop)].
Defined.












(* ================================================================== *)
(** * Further properties of the code *)
(* ================================================================== *)

(* ------------------------------------------------------------------ *)
(** ** [is_alpha] *)
(* ------------------------------------------------------------------ *)

Lemma alpha_rest_spec (s : string) :
  alpha_rest s = true <->
  forallb is_ascii_letter (list_ascii_of_string s) = true
  \/ exists s', s = s' ++ newline
                /\ forallb is_ascii_letter (list_ascii_of_string s') = true.
Proof.
  induction s as [|c s IH]; simpl.
  - split; [now left | reflexivity].
  - destruct (is_ascii_letter c) eqn:Ec; simpl.
    + rewrite IH. split.
      * intros [H|(s' & -> & H)]; [now left|].
        right. exists (String c s'). split; [reflexivity | simpl; now rewrite Ec].
      * intros [H|(s' & E & H)]; [now left|].
        destruct s' as [|d s']; simpl in E.
        -- injection E as -> _. discriminate Ec.
        -- injection E as <- ->. simpl in H. rewrite Ec in H.
           right. exists s'. split; [reflexivity | exact H].
    + split.
      * intro H. apply andb_true_iff in H. destruct H as [Hc Hs].
        apply Ascii.eqb_eq in Hc. apply String.eqb_eq in Hs. subst.
        right. exists "". split; reflexivity.
      * intros [H|(s' & E & H)]; [discriminate|].
        destruct s' as [|d s']; simpl in E.
        -- injection E as -> ->. reflexivity.
        -- injection E as <- _. simpl in H. rewrite Ec in H. discriminate.
Qed.

(** X1. [is_alpha] accepts exactly the non-empty strings of ASCII
    letters, and the same strings with one newline after them: the [$]
    of the pattern also matches before a final newline. *)
Theorem is_alpha_spec (word : string) :
  is_alpha word = true <->
  alphabetic_only word = true
  \/ exists letters, word = letters ++ newline /\ alphabetic_only letters = true.
Proof.
  destruct word as [|c s].
  - simpl. split; [discriminate|].
    intros [H|(l & E & H)]; [discriminate|].
    destruct l; [discriminate H | discriminate E].
  - unfold is_alpha, alphabetic_only. simpl.
    destruct (is_ascii_letter c) eqn:Ec; simpl.
    + rewrite alpha_rest_spec. split.
      * intros [H|(s' & -> & H)]; [now left|].
        right. exists (String c s'). split; [reflexivity|]. simpl. now rewrite Ec.
      * intros [H|(l & E & H)]; [now left|].
        destruct l as [|d l]; [discriminate H|].
        simpl in E. injection E as <- ->. simpl in H. rewrite Ec in H.
        right. exists l. split; [reflexivity | exact H].
    + split; [discriminate|].
      intros [H|(l & E & H)]; [discriminate|].
      destruct l as [|d l]; [discriminate H|].
      simpl in E. injection E as <- _. simpl in H. rewrite Ec in H. discriminate.
Qed.

(* ------------------------------------------------------------------ *)
(** ** [main] without its bucket *)
(* ------------------------------------------------------------------ *)

(** X2. When [FIREBASE_STORAGE_BUCKET] is unset or empty, [main] logs
    the error and returns: it makes no request, no upload, no read or
    write of a checkpoint and no write of the job status, and the store
    is as it was. *)
Theorem main_stops_without_bucket (W : World) (c0 : Checkpoints)
    (Henv : env_FIREBASE_STORAGE_BUCKET W = None
            \/ env_FIREBASE_STORAGE_BUCKET W = Some "") :
  store_of (main W c0) = c0
  /\ calls (events_of (main W c0)) = []
  /\ exists msg,
       events_of (main W c0)
       = [Log INFO "Starting Google Ngram processing on Compute Engine";
          Log ERROR msg].
Proof.
  destruct Henv as [H|H]; unfold main; rewrite H;
    (split; [reflexivity|]); (split; [reflexivity|]); eexists; reflexivity.
Qed.

Lemma main_stops_without_bucket_witness :
  (env_FIREBASE_STORAGE_BUCKET world_no_bucket = None
   \/ env_FIREBASE_STORAGE_BUCKET world_no_bucket = Some "")
  /\ calls (events_of (main world_no_bucket [])) = [].
Proof.
  assert (H : env_FIREBASE_STORAGE_BUCKET world_no_bucket = None
              \/ env_FIREBASE_STORAGE_BUCKET world_no_bucket = Some "")
    by (left; reflexivity).
  split; [exact H|].
  destruct (main_stops_without_bucket world_no_bucket [] H) as (_ & Hc & _).
  exact Hc.
Defined.

(* ------------------------------------------------------------------ *)
(** ** The checkpoint clients *)
(* ------------------------------------------------------------------ *)

Lemma write_checkpoint_run (W : World) (db : bool) (ngram_type shard_id url : string)
    (c : Checkpoints) :
  let key := checkpoint_key ngram_type shard_id in
  write_checkpoint W db ngram_type shard_id url c
  = (tt, store_after_set W c key url,
     CheckpointSet key url :: checkpoint_write_log W db key).
Proof. apply checkpoint_write_run. Qed.

(** X3. Write then read.  When the write of a checkpoint is taken (by
    either client of [main]) and the read of the key works, then after
    the write [is_shard_done] answers true for that shard, it answers for
    every other key what it answered before, and a second write of the
    checkpoint of the shard changes no answer of [is_shard_done]. *)
Theorem checkpoint_write_then_read (W : World) (db db' : bool)
    (ngram_type shard_id url url' : string) (c : Checkpoints)
    (Hset : checkpoint_set_error W (checkpoint_key ngram_type shard_id) = None)
    (Hget : checkpoint_get_error W (checkpoint_key ngram_type shard_id) = None) :
  let c' := store_of (write_checkpoint W db ngram_type shard_id url c) in
  let c'' := store_of (write_checkpoint W db ngram_type shard_id url' c') in
  result_of (is_shard_done W ngram_type shard_id db' c') = true
  /\ (forall ngram_type' shard_id',
        checkpoint_key ngram_type' shard_id' <> checkpoint_key ngram_type shard_id ->
        result_of (is_shard_done W ngram_type' shard_id' db' c')
        = result_of (is_shard_done W ngram_type' shard_id' db' c))
  /\ (forall ngram_type' shard_id',
        result_of (is_shard_done W ngram_type' shard_id' db' c'')
        = result_of (is_shard_done W ngram_type' shard_id' db' c')).
Proof.
  intros c' c''. subst c'' c'. rewrite !write_checkpoint_run.
  unfold store_of. cbn [fst snd].
  assert (Hfirst : checkpoint_done W
                     (store_after_set W c (checkpoint_key ngram_type shard_id) url)
                     (checkpoint_key ngram_type shard_id) = true).
  { unfold checkpoint_done, store_after_set.
    rewrite Hget, Hset, store_get_set_same. reflexivity. }
  split; [|split].
  - rewrite is_shard_done_result. exact Hfirst.
  - intros nt' sid' Hne. rewrite !is_shard_done_result.
    apply checkpoint_done_store, store_after_set_other. congruence.
  - intros nt' sid'. rewrite !is_shard_done_result.
    destruct (String.eqb_spec (checkpoint_key nt' sid')
                (checkpoint_key ngram_type shard_id)) as [E|Hne].
    + rewrite E, Hfirst. unfold checkpoint_done, store_after_set.
      rewrite Hget, Hset, store_get_set_same. reflexivity.
    + apply checkpoint_done_store, store_after_set_other. congruence.
Qed.

Lemma checkpoint_write_then_read_witness :
  checkpoint_set_error world_all_fail (checkpoint_key "1gram" "x") = None
  /\ checkpoint_get_error world_all_fail (checkpoint_key "1gram" "x") = None
  /\ result_of
       (is_shard_done world_all_fail "1gram" "x" true
          (store_of (write_checkpoint world_all_fail false "1gram" "x" "u" [])))
     = true.
Proof.
  split; [reflexivity|]. split; [reflexivity|].
  destruct (checkpoint_write_then_read world_all_fail false true "1gram" "x" "u" "u"
              [] eq_refl eq_refl) as (H & _).
  exact H.
Defined.

(** X4. Failures of the checkpoint store stay inside the clients.  A
    write that fails leaves the store as it was, whichever client makes
    it, and only logs; a read that fails makes [is_shard_done] answer
    false whatever the store holds, so the shard is among those the loop
    processes. *)
Theorem checkpoint_failures_swallowed (W : World) (db : bool) (n : Z)
    (url e : string) (c : Checkpoints) (urls : list string) :
  (checkpoint_set_error W (shard_key n url) = Some e ->
   store_of (write_checkpoint W db (ngram_type_of n) (shard_id_of url) url c) = c
   /\ exists msg,
        events_of (write_checkpoint W db (ngram_type_of n) (shard_id_of url) url c)
        = [CheckpointSet (shard_key n url) url; Log ERROR msg])
  /\ (checkpoint_get_error W (shard_key n url) = Some e ->
      result_of (is_shard_done W (ngram_type_of n) (shard_id_of url) db c) = false
      /\ store_of (is_shard_done W (ngram_type_of n) (shard_id_of url) db c) = c
      /\ (In url urls -> In url (processed_shards W n c urls))).
Proof.
  split.
  - intro Hset. rewrite write_checkpoint_run. fold (shard_key n url).
    unfold store_of, events_of, store_after_set, checkpoint_write_log. cbn [fst snd].
    rewrite Hset. split; [reflexivity|]. destruct db; eexists; reflexivity.
  - intro Hget. rewrite is_shard_done_run. fold (shard_key n url).
    unfold result_of, store_of. cbn [fst snd].
    assert (Hd : checkpoint_done W c (shard_key n url) = false)
      by (unfold checkpoint_done; now rewrite Hget).
    split; [exact Hd|]. split; [reflexivity|].
    intro Hin. unfold processed_shards. rewrite filter_In, Hd. now split.
Qed.

Lemma checkpoint_failures_swallowed_witness :
  checkpoint_get_error world_store_down (shard_key 1 url_1a) = Some "unavailable"
  /\ result_of
       (is_shard_done world_store_down (ngram_type_of 1) (shard_id_of url_1a) false
          [(shard_key 1 url_1a, done_doc url_1a)])
     = false.
Proof.
  split; [reflexivity|].
  destruct (checkpoint_failures_swallowed world_store_down false 1 url_1a "unavailable"
              [(shard_key 1 url_1a, done_doc url_1a)] []) as (_ & Hget).
  destruct (Hget eq_refl) as (H & _). exact H.
Defined.

(* ------------------------------------------------------------------ *)
(** ** What [process_shard] returns *)
(* ------------------------------------------------------------------ *)

Lemma dict_keys_set (d : Dict) (k : string) (v : Z) :
  dict_keys (dict_set d k v)
  = if mem_string k (dict_keys d) then dict_keys d else app (dict_keys d) [k].
Proof.
  unfold dict_keys. induction d as [|[k' v'] d IH]; simpl; [reflexivity|].
  rewrite (String.eqb_sym k k').
  destruct (String.eqb k' k) eqn:E; simpl; [reflexivity|].
  rewrite IH. destruct (mem_string k (map fst d)); reflexivity.
Qed.

Lemma dict_keys_add_In (d : Dict) (k g : string) (v : Z) :
  In g (dict_keys (dict_add d k v)) <-> g = k \/ In g (dict_keys d).
Proof.
  unfold dict_add. rewrite dict_keys_set.
  destruct (mem_string k (dict_keys d)) eqn:E.
  - apply mem_string_In in E. split; [tauto|]. intros [->|H]; assumption.
  - rewrite in_app_iff. simpl. split; [intros [H|[<-|[]]]; tauto | intros [->|H]; tauto].
Qed.

Lemma dict_keys_add_NoDup (d : Dict) (k : string) (v : Z) :
  NoDup (dict_keys d) -> NoDup (dict_keys (dict_add d k v)).
Proof.
  intro H. unfold dict_add. rewrite dict_keys_set.
  destruct (mem_string k (dict_keys d)) eqn:E; [exact H|].
  apply NoDup_app; [exact H | constructor; [intros [] | constructor] |].
  intros g Hg [<-|[]]. apply mem_string_In in Hg. congruence.
Qed.


Lemma process_line_well_keyed (url : string) (n : Z) (st : shard_vars) (raw : string) :
  well_keyed n (agg st) -> well_keyed n (agg (process_line url n st raw)).
Proof.
  intro H. unfold process_line.
  destruct (String.eqb (PyStr.strip raw) ""); [exact H|].
  destruct (3 <=? Z.of_nat (length (PyStr.split PyStr.TAB (PyStr.strip raw))));
    [|exact H].
  destruct (PyStr.int _) as [count|]; [|exact H].
  destruct (negb (Z.of_nat (length (PyStr.split PyStr.SPACE
                                      (nth 0 (PyStr.split PyStr.TAB (PyStr.strip raw)) "")))
                  =? n)
            || negb (is_clean_gram (PyStr.split PyStr.SPACE
                                      (nth 0 (PyStr.split PyStr.TAB (PyStr.strip raw)) ""))))
    eqn:E; [exact H|].
  apply orb_false_iff in E. destruct E as [E1 E2].
  apply negb_false_iff in E1, E2. apply Z.eqb_eq in E1.
  destruct H as [Hnd Hadm]. cbn [agg]. split.
  - now apply dict_keys_add_NoDup.
  - intros g Hg. apply dict_keys_add_In in Hg. destruct Hg as [->|Hg];
      [split; assumption | now apply Hadm].
Qed.

Lemma process_lines_well_keyed (url : string) (n : Z) (lines : list string)
    (st : shard_vars) :
  well_keyed n (agg st) -> well_keyed n (agg (fold_left (process_line url n) lines st)).
Proof.
  revert st. induction lines as [|raw lines IH]; intros st H; simpl; [exact H|].
  apply IH. now apply process_line_well_keyed.
Qed.

Lemma well_keyed_nil (n : Z) : well_keyed n [].
Proof. split; [constructor | intros g []]. Qed.

Lemma split_length_pos (sep : ascii) (s : string) :
  (1 <= length (PyStr.split sep s))%nat.
Proof.
  pose proof (split_not_nil sep s) as H.
  destruct (PyStr.split sep s); [congruence | simpl; lia].
Qed.

Lemma process_shard_well_keyed (resp : response) (url : string) (n : Z) :
  well_keyed n (fst (process_shard resp url n)).
Proof.
  unfold process_shard. destruct resp as [e|text [e|]]; cbn [fst];
    try apply well_keyed_nil.
  apply process_lines_well_keyed, well_keyed_nil.
Qed.

(** X5. Whatever the response, the map [process_shard] returns has each
    gram once, and every gram in it splits on single spaces into exactly
    [n] tokens that pass [is_clean_gram].  For an order below 1 it is
    always empty, since a split never yields fewer than one token. *)
Theorem process_shard_keys (resp : response) (url : string) (n : Z) :
  NoDup (dict_keys (fst (process_shard resp url n)))
  /\ (forall g, In g (dict_keys (fst (process_shard resp url n))) -> admitted_gram n g)
  /\ (n < 1 -> fst (process_shard resp url n) = []).
Proof.
  destruct (process_shard_well_keyed resp url n) as [Hnd Hadm]. split; [exact Hnd|]. split; [exact Hadm|].
  intro Hn. destruct (fst (process_shard resp url n)) as [|[g v] d]; [reflexivity|].
  exfalso. destruct (Hadm g (or_introl eq_refl)) as [Hlen _].
  pose proof (split_length_pos PyStr.SPACE g). lia.
Qed.

Lemma process_line_count (url : string) (n : Z) (st : shard_vars) (raw : string) :
  line_count (process_line url n st raw)
  = line_count st + (if String.eqb (PyStr.strip raw) "" then 0 else 1).
Proof.
  unfold process_line. destruct (String.eqb (PyStr.strip raw) ""); [lia|].
  destruct (3 <=? _); [|reflexivity].
  destruct (PyStr.int _); [|reflexivity].
  destruct (negb _ || negb _); reflexivity.
Qed.

Lemma process_lines_count (url : string) (n : Z) (lines : list string) (st : shard_vars) :
  line_count (fold_left (process_line url n) lines st)
  = line_count st + Z.of_nat (length (counted_lines lines)).
Proof.
  revert st. induction lines as [|raw lines IH]; intro st; simpl; [lia|].
  rewrite IH, process_line_count. unfold counted_lines. cbn [filter].
  destruct (String.eqb (PyStr.strip raw) ""); simpl negb; cbn [length]; lia.
Qed.

(** X6. The line count [process_shard] reports when a stream ends well
    is the number of lines that are not blank after [strip]: blank lines
    are not counted, lines that are discarded are.  The report is the
    last thing logged, with the number of grams of the returned map. *)
Theorem process_shard_line_count (text url : string) (n : Z) :
  let result := process_shard (Stream text None) url n in
  last (snd result) (Sleep 0)
  = Log INFO ("Completed " ++ url ++ ": "
              ++ PyStr.str_of_Z
                   (Z.of_nat (length (counted_lines (PyStr.iter_lines text))))
              ++ " lines, "
              ++ PyStr.str_of_Z (Z.of_nat (length (fst result)))
              ++ " unique grams").
Proof.
  intro result. subst result. unfold process_shard. cbn [fst snd].
  rewrite last_list_append, process_lines_count. reflexivity.
Qed.

(* ------------------------------------------------------------------ *)
(** ** Counts of the type aggregate *)
(* ------------------------------------------------------------------ *)

Lemma entries_total_absent (d : Dict) (g : string) :
  ~ In g (dict_keys d) -> entries_total d g = 0.
Proof.
  induction d as [|[k v] d IH]; intro H; simpl; [reflexivity|].
  destruct (String.eqb_spec k g) as [->|Hne].
  - exfalso. apply H. now left.
  - apply IH. intro Hin. apply H. now right.
Qed.

Lemma dict_get_absent (d : Dict) (g : string) :
  ~ In g (dict_keys d) -> dict_get d g = None.
Proof.
  induction d as [|[k v] d IH]; intro H; simpl; [reflexivity|].
  destruct (String.eqb_spec k g) as [->|Hne].
  - exfalso. apply H. now left.
  - apply IH. intro Hin. apply H. now right.
Qed.

(** In a map with unique keys the entries of a gram are its one entry. *)
Lemma entries_total_unique (d : Dict) (g : string) :
  NoDup (dict_keys d) -> entries_total d g = dict_count d g.
Proof.
  induction d as [|[k v] d IH]; intro H; [reflexivity|].
  inversion H as [|? ? Hnotin Hnd]; subst. simpl. unfold dict_count. simpl.
  destruct (String.eqb_spec k g) as [->|Hne].
  - rewrite (entries_total_absent d g Hnotin). lia.
  - apply IH. exact Hnd.
Qed.

Lemma fold_merge_count (shards : list Dict) (type_agg : Dict) (g : string) :
  dict_count (fold_left merge_shard shards type_agg) g
  = dict_count type_agg g + Zsum (map (fun d => entries_total d g) shards).
Proof.
  revert type_agg. induction shards as [|d shards IH]; intro type_agg; simpl; [lia|].
  rewrite IH, dict_count_merge. lia.
Qed.

(** X7. The type aggregate of an order counts, for every gram, the sum
    of what the processed shards returned for it, before any threshold:
    the per-shard files are filtered, the merge is not, so the threshold
    of the ranking applies to the total over the shards. *)
Theorem type_aggregate_counts (W : World) (bucket : string) (db : bool) (n : Z)
    (c : Checkpoints) (g : string) (Hn : in_range_1_5 n) :
  dict_count (type_aggregate (result_of (shard_loop W bucket db n c))) g
  = Zsum (map (fun url => dict_count (shard_results W n url) g)
            (processed_shards W n c (build_shard_urls n))).
Proof.
  rewrite (shard_loop_aggregate W bucket db n c Hn), fold_merge_count, map_map.
  change (dict_count [] g) with 0. rewrite Z.add_0_l. f_equal.
  apply map_ext. intro url. apply entries_total_unique.
  apply (process_shard_well_keyed (http_response W url) url n).
Qed.

Lemma type_aggregate_counts_witness :
  in_range_1_5 1
  /\ dict_count
       (type_aggregate (result_of (shard_loop world_cat "bucket" true 1 []))) "cat"
     = 156000.
Proof.
  assert (Hn : in_range_1_5 1) by (unfold in_range_1_5; lia).
  split; [exact Hn|].
  rewrite (type_aggregate_counts world_cat "bucket" true 1 [] "cat" Hn).
  vm_compute. reflexivity.
Defined.

Lemma Zsum_perm (l l' : list Z) : Permutation l l' -> Zsum l = Zsum l'.
Proof. induction 1; simpl; lia. Qed.

(** X8. The counts of the aggregate do not depend on the order in which
    shards are merged: merging the same shards in another order gives
    every gram the same count. *)
Theorem merge_order_irrelevant (shards shards' : list Dict) (type_agg : Dict)
    (g : string) (Hperm : Permutation shards shards') :
  dict_count (fold_left merge_shard shards type_agg) g
  = dict_count (fold_left merge_shard shards' type_agg) g.
Proof.
  rewrite !fold_merge_count. f_equal. apply Zsum_perm. now apply Permutation_map.
Qed.

Lemma merge_order_irrelevant_witness :
  Permutation [[("cat", 5)]; [("dog", 2); ("cat", 1)]] [[("dog", 2); ("cat", 1)]; [("cat", 5)]]
  /\ dict_count (fold_left merge_shard [[("cat", 5)]; [("dog", 2); ("cat", 1)]] []) "cat"
     = dict_count (fold_left merge_shard [[("dog", 2); ("cat", 1)]; [("cat", 5)]] []) "cat".
Proof.
  assert (H : Permutation [[("cat", 5)]; [("dog", 2); ("cat", 1)]]
                [[("dog", 2); ("cat", 1)]; [("cat", 5)]]) by apply perm_swap.
  split; [exact H|].
  apply (merge_order_irrelevant _ _ [] "cat" H).
Defined.

(* ------------------------------------------------------------------ *)
(** ** The entries [filter_and_rank] returns *)
(* ------------------------------------------------------------------ *)

Lemma StronglySorted_app_between {A : Type} (R : A -> A -> Prop) (l1 l2 : list A) :
  StronglySorted R (app l1 l2) ->
  StronglySorted R l1 /\ forall a b, In a l1 -> In b l2 -> R a b.
Proof.
  induction l1 as [|x l1 IH]; simpl; intro H.
  - split; [constructor | intros a b []].
  - inversion H as [|? ? Hs Hx]; subst. destruct (IH Hs) as [Hs1 Hbetween].
    rewrite Forall_app in Hx. destruct Hx as [Hx1 Hx2].
    split; [now constructor|].
    intros a b [<-|Ha] Hb.
    + rewrite Forall_forall in Hx2. now apply Hx2.
    + now apply Hbetween.
Qed.

Lemma StronglySorted_map_ranked (l : list (string * Z)) :
  StronglySorted by_count_desc l -> StronglySorted by_freq_desc (map ranked l).
Proof.
  induction 1 as [|x l Hs IH Hx]; simpl; constructor; [exact IH|].
  rewrite Forall_map. exact Hx.
Qed.

Lemma NoDup_app_l {A : Type} (l1 l2 : list A) : NoDup (app l1 l2) -> NoDup l1.
Proof.
  induction l1 as [|x l1 IH]; simpl; intro H; [constructor|].
  inversion H as [|? ? Hnotin Hnd]; subst. constructor; [|now apply IH].
  intro Hin. apply Hnotin. apply in_or_app. now left.
Qed.

Lemma filter_keys_NoDup (keep : string * Z -> bool) (d : Dict) :
  NoDup (dict_keys d) -> NoDup (dict_keys (filter keep d)).
Proof.
  unfold dict_keys. induction d as [|[k v] d IH]; intro Hnd; [constructor|].
  simpl in Hnd. apply NoDup_cons_iff in Hnd. destruct Hnd as [Hk Hd].
  simpl. destruct (keep (k, v)); [|now apply IH].
  simpl. apply NoDup_cons_iff. split; [|now apply IH].
  intro Hin. apply Hk. apply in_map_iff in Hin.
  destruct Hin as ([k' v'] & Ek & Hin'). apply filter_In in Hin'.
  apply in_map_iff. exists (k', v'). tauto.
Qed.

Lemma firstn_subset {A : Type} (k : nat) (l : list A) :
  forall item, In item (firstn k l) -> In item l.
Proof.
  revert l. induction k as [|k IH]; intros [|y l] item Hin;
    simpl in Hin; try contradiction.
  destruct Hin as [->|Hin]; [now left | right; now apply IH].
Qed.

Lemma ranked_item (item : string * Z) : (gram (ranked item), freq (ranked item)) = item.
Proof. now destruct item. Qed.






(** X9. With a cap [k >= 0], every entry [filter_and_rank] returns is an
    entry of the map it was given, with a count of at least 5000; the
    entries come in descending order of count; no gram comes twice when
    the map has each key once; and an entry of the map with count at
    least 5000 is left out only when the result is full ([k] entries),
    and then its count is no larger than the count of any entry
    returned. *)
Theorem filter_and_rank_entries (grams : Dict) (n k : Z) (Hk : 0 <= k) :
  let result := filter_and_rank grams n k in
  (forall r, In r result -> In (gram r, freq r) grams /\ 5000 <= freq r)
  /\ StronglySorted by_freq_desc result
  /\ (NoDup (dict_keys grams) -> NoDup (map gram result))
  /\ (forall item, In item grams -> 5000 <= snd item -> ~ In (ranked item) result ->
        Z.of_nat (length result) = k
        /\ forall r, In r result -> snd item <= freq r).
Proof.
  intro result.
  set (survivors := above_threshold grams).
  set (sorted := sorted_desc survivors).
  assert (Hres : result = map ranked (firstn (Z.to_nat k) sorted)).
  { unfold result, filter_and_rank. now rewrite slice_to_firstn. }
  assert (Hperm : Permutation sorted survivors) by apply sorted_desc_perm.
  assert (Hsorted : StronglySorted by_count_desc sorted) by apply sorted_desc_sorted.
  assert (Hparts : sorted = app (firstn (Z.to_nat k) sorted) (skipn (Z.to_nat k) sorted))
    by (symmetry; apply firstn_skipn).
  rewrite Hparts in Hsorted.
  destruct (StronglySorted_app_between _ _ _ Hsorted) as [Hfirst Hbetween].
  split; [|split; [|split]].
  - intros r Hr. rewrite Hres in Hr. apply in_map_iff in Hr.
    destruct Hr as (item & <- & Hitem). rewrite ranked_item.
    apply firstn_subset in Hitem.
    apply (Permutation_in _ Hperm) in Hitem.
    unfold survivors, above_threshold in Hitem. apply filter_In in Hitem.
    destruct Hitem as [Hin Hge]. split; [exact Hin|].
    apply Z.leb_le in Hge. exact Hge.
  - rewrite Hres. now apply StronglySorted_map_ranked.
  - intro Hnd. rewrite Hres, map_map.
    change (fun x => gram (ranked x)) with (@fst string Z).
    assert (Hs : NoDup (map fst sorted)).
    { apply (Permutation_NoDup (l := map fst survivors));
        [apply Permutation_map; now symmetry|].
      now apply filter_keys_NoDup. }
    rewrite Hparts, map_app in Hs. now apply NoDup_app_l in Hs.
  - intros item Hin Hge Hout.
    assert (Hsurv : In item sorted).
    { apply (Permutation_in _ (Permutation_sym Hperm)).
      unfold survivors, above_threshold. apply filter_In. split; [exact Hin|].
      now apply Z.leb_le. }
    rewrite Hparts in Hsurv. apply in_app_or in Hsurv.
    destruct Hsurv as [Hf|Hs].
    { exfalso. apply Hout. rewrite Hres. now apply in_map. }
    split.
    + rewrite Hres, length_map, length_firstn.
      assert (Hlen : (Z.to_nat k < length sorted)%nat).
      { destruct (Nat.lt_ge_cases (Z.to_nat k) (length sorted)) as [Hlt|Hle];
          [exact Hlt|].
        rewrite (skipn_all2 sorted Hle) in Hs. destruct Hs. }
      lia.
    + intros r Hr. rewrite Hres in Hr. apply in_map_iff in Hr.
      destruct Hr as (x & <- & Hx). apply (Hbetween x item Hx Hs).
Qed.

Lemma filter_and_rank_entries_witness :
  0 <= 1
  /\ forall r, In r (filter_and_rank [("a", 7000); ("b", 9000)] 1 1) ->
               7000 <= freq r.
Proof.
  assert (H : 0 <= 1) by lia.
  split; [exact H|].
  destruct (filter_and_rank_entries [("a", 7000); ("b", 9000)] 1 1 H)
    as (_ & _ & _ & Hout).
  apply (Hout ("a", 7000)); [now left | simpl; lia|].
  vm_compute. intros [E|[]]. discriminate E.
Defined.

(* ------------------------------------------------------------------ *)
(** ** The lists a run publishes *)
(* ------------------------------------------------------------------ *)









(* ------------------------------------------------------------------ *)
(** ** The counters of the shard loop *)
(* ------------------------------------------------------------------ *)

Lemma downloads_app (l1 l2 : list event) :
  downloads (app l1 l2) = app (downloads l1) (downloads l2).
Proof. apply flat_map_app. Qed.

Lemma downloads_turn_events (W : World) (bucket : string) (db : bool) (n : Z)
    (c : Checkpoints) (url : string) :
  downloads (turn_events W bucket OUT_PREFIX db n c url)
  = if checkpoint_done W c (shard_key n url) then [] else [url].
Proof.
  rewrite <- downloads_calls, turn_events_calls. unfold turn_calls.
  destruct (checkpoint_done W c (shard_key n url)); reflexivity.
Qed.

Lemma shard_loop_body_events (W : World) (bucket : string) (db : bool) (n : Z)
    (vars : type_vars) (url : string) (c : Checkpoints) :
  events_of (shard_loop_body W bucket OUT_PREFIX db n (ngram_type_of n) vars url c)
  = turn_events W bucket OUT_PREFIX db n c url.
Proof.
  rewrite shard_loop_body_run. unfold turn_events.
  destruct (checkpoint_done W c (shard_key n url)); reflexivity.
Qed.

(** X11. In the loop over any list of shard URLs, every turn counts its
    shard once, as processed or as skipped: at the end the two counters
    have grown by the number of URLs together, and the processed counter
    has grown by the number of requests made. *)
Theorem shard_counters (W : World) (bucket : string) (db : bool) (n : Z)
    (urls : list string) (vars : type_vars) (c : Checkpoints) :
  let r := for_each urls
             (shard_loop_body W bucket OUT_PREFIX db n (ngram_type_of n)) vars c in
  processed_count (result_of r) + skipped_count (result_of r)
  = processed_count vars + skipped_count vars + Z.of_nat (length urls)
  /\ processed_count (result_of r)
     = processed_count vars + Z.of_nat (length (downloads (events_of r))).
Proof.
  revert vars c. induction urls as [|url urls IH]; intros vars c r; subst r.
  - cbn [for_each]. rewrite result_ret, events_ret. cbn [downloads flat_map length].
    split; lia.
  - rewrite result_for_each_cons, events_for_each_cons.
    specialize (IH (result_of (shard_loop_body W bucket OUT_PREFIX db n
                                 (ngram_type_of n) vars url c))
                  (store_of (shard_loop_body W bucket OUT_PREFIX db n
                               (ngram_type_of n) vars url c))).
    destruct IH as [IH1 IH2]. rewrite IH1, IH2.
    rewrite downloads_app, length_app, shard_loop_body_events, downloads_turn_events.
    rewrite shard_loop_body_run.
    destruct (checkpoint_done W c (shard_key n url));
      unfold result_of; cbn [fst snd processed_count skipped_count length]; split; lia.
Qed.

Lemma shard_counters_witness :
  processed_count
    (result_of (shard_loop world_all_fail "bucket" true 1 []))
  + skipped_count (result_of (shard_loop world_all_fail "bucket" true 1 []))
  = 26.
Proof.
  unfold shard_loop.
  destruct (shard_counters world_all_fail "bucket" true 1 (build_shard_urls 1)
              initial_type_vars []) as (H & _).
  rewrite H. reflexivity.
Defined.

(* ------------------------------------------------------------------ *)
(** ** Shard identifiers and checkpoint keys *)
(* ------------------------------------------------------------------ *)

Lemma catalog_url_key (n : Z) (url : string) :
  In url (build_shard_urls n) ->
  exists key, In key (shard_keys n) /\ url = shard_url n key.
Proof.
  rewrite build_shard_urls_keys, in_map_iff.
  intros (key & <- & Hkey). now exists key.
Qed.

Lemma shard_id_of_catalog (n : Z) (key : string) :
  in_range_1_5 n -> In key (shard_keys n) ->
  shard_id_of (shard_url n key) = shard_id_prefix n ++ key.
Proof.
  intros Hn Hkey.
  assert (Hall : forallb (fun k => String.eqb (shard_id_of (shard_url n k))
                                     (shard_id_prefix n ++ k))
                   (shard_keys n) = true).
  { apply range_1_5_cases in Hn.
    destruct Hn as [->|[->|[->|[->| ->]]]]; vm_compute; reflexivity. }
  rewrite forallb_forall in Hall. apply String.eqb_eq. now apply Hall.
Qed.

Lemma shard_keys_length (n : Z) (key : string) :
  In key (shard_keys n) -> String.length key = if n =? 1 then 1%nat else 2%nat.
Proof.
  unfold shard_keys. destruct (n =? 1); intro H.
  - unfold letter_keys in H. apply in_map_iff in H. destruct H as (c & <- & _).
    reflexivity.
  - unfold pair_keys in H. apply in_flat_map in H. destruct H as (i & _ & H).
    apply in_map_iff in H. destruct H as (j & <- & _). reflexivity.
Qed.

Lemma shard_key_order (n m : Z) (url url' : string) :
  in_range_1_5 n -> in_range_1_5 m -> n <> m -> shard_key n url <> shard_key m url'.
Proof.
  intros Hn Hm Hne. apply range_1_5_cases in Hn, Hm.
  unfold shard_key, checkpoint_key.
  destruct Hn as [->|[->|[->|[->| ->]]]], Hm as [->|[->|[->|[->| ->]]]];
    try congruence;
    repeat match goal with
           | |- context [ngram_type_of ?k] =>
               let v := eval vm_compute in (ngram_type_of k) in
               change (ngram_type_of k) with v
           end;
    simpl; discriminate.
Qed.

(** X12. The shard identifier [main] derives from a catalog URL is the
    file name without [.gz], that is the fixed stem
    [googlebooks-eng-all-{n}gram-20120701-] followed by the one- or
    two-letter key; the checkpoint key and the per-shard file name are
    built on it, and checkpoint keys of different orders never meet. *)
Theorem shard_identifiers (n : Z) (url : string)
    (Hn : in_range_1_5 n) (Hurl : In url (build_shard_urls n)) :
  exists key,
    In key (shard_keys n)
    /\ String.length key = (if n =? 1 then 1%nat else 2%nat)
    /\ url = shard_url n key
    /\ shard_id_of url = shard_id_prefix n ++ key
    /\ shard_key n url = ngram_type_of n ++ "_" ++ shard_id_prefix n ++ key
    /\ shard_file OUT_PREFIX n url
       = OUT_PREFIX ++ "/" ++ ngram_type_of n ++ "_" ++ shard_id_prefix n ++ key
         ++ "_filtered.json"
    /\ forall m url', in_range_1_5 m -> m <> n -> shard_key m url' <> shard_key n url.
Proof.
  destruct (catalog_url_key n url Hurl) as (key & Hkey & ->).
  exists key. split; [exact Hkey|]. split; [now apply shard_keys_length|].
  split; [reflexivity|].
  pose proof (shard_id_of_catalog n key Hn Hkey) as Hid.
  split; [exact Hid|].
  split; [unfold shard_key, checkpoint_key; now rewrite Hid|].
  split; [unfold shard_file; now rewrite Hid, string_app_assoc|].
  intros m url' Hm Hne. now apply shard_key_order.
Qed.

Lemma shard_identifiers_witness :
  in_range_1_5 1
  /\ In url_1a (build_shard_urls 1)
  /\ exists key,
       In key (shard_keys 1)
       /\ shard_key 1 url_1a = ngram_type_of 1 ++ "_" ++ shard_id_prefix 1 ++ key.
Proof.
  assert (Hn : in_range_1_5 1) by (unfold in_range_1_5; lia).
  split; [exact Hn|]. split; [exact url_1a_in_catalog|].
  destruct (shard_identifiers 1 url_1a Hn url_1a_in_catalog)
    as (key & Hin & _ & _ & _ & Hkey & _).
  exists key. split; [exact Hin | exact Hkey].
Defined.

(** X13. For an order other than 1, inside 2..5 or not, the catalog is
    the 676 two-letter shards of that number: 0 and 6 get catalogs as 2
    does. *)
Theorem build_shard_urls_other_orders (n : Z) (Hn : n <> 1) :
  build_shard_urls n = map (shard_url n) pair_keys
  /\ length (build_shard_urls n) = 676%nat
  /\ NoDup (build_shard_urls n).
Proof.
  rewrite (build_shard_urls_pairs n Hn).
  split; [reflexivity|]. split; [now rewrite length_map|].
  apply NoDup_map_shard_url, pair_keys_NoDup.
Qed.

Lemma build_shard_urls_other_orders_witness :
  0 <> 1 /\ length (build_shard_urls 0) = 676%nat.
Proof.
  assert (H : 0 <> 1) by lia.
  split; [exact H|].
  destruct (build_shard_urls_other_orders 0 H) as (_ & Hlen & _). exact Hlen.
Defined.

(* ------------------------------------------------------------------ *)
(** ** What a whole run requests *)
(* ------------------------------------------------------------------ *)

Lemma writes_frame (W : World) (n : Z) (urls : list string) (c : Checkpoints)
    (key : string) :
  (forall url, shard_key n url <> key) ->
  store_get
    (fold_left (fun c' url => store_after_set W c' (shard_key n url) url) urls c) key
  = store_get c key.
Proof.
  intro Hkey. revert c. induction urls as [|u urls IH]; intro c; simpl; [reflexivity|].
  rewrite IH. apply store_after_set_other, Hkey.
Qed.

Lemma shard_loop_frame (W : World) (bucket : string) (db : bool) (n : Z)
    (c : Checkpoints) (key : string) :
  in_range_1_5 n ->
  (forall url, shard_key n url <> key) ->
  store_get (store_of (shard_loop W bucket db n c)) key = store_get c key.
Proof.
  intros Hn Hkey. rewrite shard_loop_store by exact Hn. now apply writes_frame.
Qed.

Lemma processed_shards_store (W : World) (n : Z) (c c' : Checkpoints)
    (urls : list string) :
  (forall url, store_get c' (shard_key n url) = store_get c (shard_key n url)) ->
  processed_shards W n c' urls = processed_shards W n c urls.
Proof.
  intro H. apply filter_ext. intro url. f_equal. apply checkpoint_done_store, H.
Qed.

Lemma downloads_type_calls (W : World) (bucket : string) (db : bool) (n : Z)
    (c : Checkpoints) :
  downloads (type_calls W bucket db n c)
  = processed_shards W n c (build_shard_urls n).
Proof.
  unfold type_calls. rewrite downloads_app, downloads_turns. apply app_nil_r.
Qed.

Lemma types_downloads (W : World) (bucket : string) (db : bool) (c0 : Checkpoints)
    (ns : list Z) :
  NoDup ns -> Forall in_range_1_5 ns ->
  forall c,
    (forall n url, In n ns ->
                   store_get c (shard_key n url) = store_get c0 (shard_key n url)) ->
    downloads (types_calls W bucket db ns c)
    = flat_map (fun n => processed_shards W n c0 (build_shard_urls n)) ns.
Proof.
  intros Hnd Hr. revert Hnd.
  induction Hr as [|n ns Hn Hns IH]; intros Hnd c Hc; [reflexivity|].
  inversion Hnd as [|? ? Hnotin Hnd']; subst.
  cbn [types_calls flat_map]. rewrite downloads_app, downloads_type_calls.
  f_equal.
  - apply processed_shards_store. intro url. apply Hc. now left.
  - apply IH; [exact Hnd'|]. intros m url Hm.
    rewrite shard_loop_frame; [apply Hc; now right | exact Hn |].
    intro url'. apply shard_key_order; [exact Hn | |].
    + rewrite Forall_forall in Hns. now apply Hns.
    + intros ->. contradiction.
Qed.

Lemma orders_NoDup : NoDup (range 1 6).
Proof.
  change (range 1 6) with [1; 2; 3; 4; 5].
  repeat (constructor; [simpl; intros H; repeat destruct H as [H|H]; try lia; exact H|]).
  constructor.
Qed.


Lemma catalog_order_char (n : Z) (url : string) :
  in_range_1_5 n -> In url (build_shard_urls n) ->
  order_char url = String.get 0 (PyStr.str_of_Z n).
Proof.
  intros Hn Hurl.
  assert (Hall : forallb (fun u => match order_char u, String.get 0 (PyStr.str_of_Z n) with
                                   | Some a, Some b => Ascii.eqb a b
                                   | _, _ => false
                                   end) (build_shard_urls n) = true).
  { apply range_1_5_cases in Hn.
    destruct Hn as [->|[->|[->|[->| ->]]]]; vm_compute; reflexivity. }
  rewrite forallb_forall in Hall. specialize (Hall url Hurl).
  destruct (order_char url) as [a|], (String.get 0 (PyStr.str_of_Z n)) as [b|];
    try discriminate.
  apply Ascii.eqb_eq in Hall. now subst.
Qed.

Lemma catalogs_disjoint (n m : Z) (url : string) :
  in_range_1_5 n -> in_range_1_5 m -> n <> m ->
  In url (build_shard_urls n) -> ~ In url (build_shard_urls m).
Proof.
  intros Hn Hm Hne Hin Hin'.
  pose proof (catalog_order_char n url Hn Hin) as En.
  pose proof (catalog_order_char m url Hm Hin') as Em.
  rewrite En in Em. apply range_1_5_cases in Hn, Hm.
  destruct Hn as [->|[->|[->|[->| ->]]]], Hm as [->|[->|[->|[->| ->]]]];
    try congruence; vm_compute in Em; discriminate.
Qed.

Lemma catalogs_NoDup (ns : list Z) :
  NoDup ns -> Forall in_range_1_5 ns -> NoDup (flat_map build_shard_urls ns).
Proof.
  intros Hnd Hr. revert Hnd.
  induction Hr as [|n ns Hn Hns IH]; intro Hnd; [constructor|].
  inversion Hnd as [|? ? Hnotin Hnd']; subst. cbn [flat_map].
  apply NoDup_app; [apply build_shard_urls_NoDup | now apply IH |].
  intros url Hin Hin'. apply in_flat_map in Hin'. destruct Hin' as (m & Hm & Hin').
  rewrite Forall_forall in Hns.
  apply (catalogs_disjoint n m url Hn (Hns m Hm)); [|exact Hin | exact Hin'].
  intros ->. contradiction.
Qed.

Lemma NoDup_app_disjoint {A : Type} (l1 l2 : list A) (x : A) :
  NoDup (app l1 l2) -> In x l1 -> ~ In x l2.
Proof.
  induction l1 as [|a l1 IH]; intros Hnd Hin Hin2; [contradiction|].
  inversion Hnd as [|? ? Hnotin Hnd']; subst. destruct Hin as [->|Hin].
  - apply Hnotin. apply in_or_app. now right.
  - now apply (IH Hnd' Hin).
Qed.

Lemma NoDup_flat_map_filter {A B : Type} (g : A -> list B) (p : A -> B -> bool)
    (ns : list A) :
  NoDup (flat_map g ns) -> NoDup (flat_map (fun n => filter (p n) (g n)) ns).
Proof.
  induction ns as [|n ns IH]; intro H; [constructor|].
  cbn [flat_map] in *.
  apply NoDup_app.
  - apply NoDup_filter. now apply NoDup_app_remove_r in H.
  - apply IH. now apply NoDup_app_remove_l in H.
  - intros x Hx Hx'. apply filter_In in Hx. destruct Hx as [Hx _].
    apply (NoDup_app_disjoint _ _ x H Hx).
    apply in_flat_map in Hx'. destruct Hx' as (m & Hm & Hx').
    apply filter_In in Hx'. apply in_flat_map. exists m. tauto.
Qed.

Lemma main_downloads (W : World) (bucket : string) (c0 : Checkpoints) :
  bucket_of W bucket ->
  downloads (events_of (main W c0))
  = flat_map (fun n => processed_shards W n c0 (build_shard_urls n)) (range 1 6).
Proof.
  intro Hb. destruct (main_run W bucket c0 Hb) as (_ & He).
  rewrite <- downloads_calls, He, downloads_app.
  rewrite (types_downloads W bucket (client_ok W) c0 (range 1 6) orders_NoDup
             orders_in_range c0) by reflexivity.
  unfold consolidated_calls.
  destruct (truthy _), (truthy _); cbn [downloads flat_map app]; now rewrite app_nil_r.
Qed.

(** X14. Which shards a whole run requests is decided by the store the
    run starts on: the requests are, order by order and in catalog
    order, the shards [is_shard_done] does not report done on that
    store; no shard is requested twice in a run; and on a store that
    reports none done, the run requests all 2730 shards of the five
    catalogs. *)
Theorem run_downloads (W : World) (bucket : string) (c0 : Checkpoints)
    (Hb : bucket_of W bucket) :
  let D := downloads (events_of (main W c0)) in
  D = flat_map (fun n => processed_shards W n c0 (build_shard_urls n)) (range 1 6)
  /\ NoDup D
  /\ ((forall n url, in_range_1_5 n -> In url (build_shard_urls n) ->
                     checkpoint_done W c0 (shard_key n url) = false) ->
      D = flat_map build_shard_urls (range 1 6) /\ length D = 2730%nat).
Proof.
  intro D. subst D. rewrite (main_downloads W bucket c0 Hb).
  split; [reflexivity|]. split.
  - unfold processed_shards.
    apply (NoDup_flat_map_filter build_shard_urls
             (fun n url => negb (checkpoint_done W c0 (shard_key n url)))).
    apply catalogs_NoDup; [apply orders_NoDup | apply orders_in_range].
  - intro Hnone.
    assert (Hall : flat_map (fun n => processed_shards W n c0 (build_shard_urls n))
                     (range 1 6)
                   = flat_map build_shard_urls (range 1 6)).
    { apply flat_map_ext_in. intros n Hn.
      assert (Hr : in_range_1_5 n).
      { pose proof orders_in_range as H. rewrite Forall_forall in H. now apply H. }
      unfold processed_shards. rewrite <- (filter_true (build_shard_urls n)) at 2.
      apply filter_ext_in'. intros url Hurl. now rewrite (Hnone n url Hr Hurl). }
    rewrite Hall. split; [reflexivity|]. vm_compute. reflexivity.
Qed.

Lemma run_downloads_witness :
  bucket_of world_all_fail "bucket"
  /\ length (downloads (events_of (main world_all_fail []))) = 2730%nat.
Proof.
  split; [exact world_all_fail_bucket|].
  destruct (run_downloads world_all_fail "bucket" [] world_all_fail_bucket)
    as (_ & _ & Hnone).
  destruct (Hnone (fun n url _ _ => eq_refl)) as (_ & Hlen). exact Hlen.
Defined.

(* ------------------------------------------------------------------ *)
(** ** A run on a store where every shard is done *)
(* ------------------------------------------------------------------ *)

Lemma flat_map_singleton {A B : Type} (f : A -> B) (l : list A) :
  flat_map (fun x => [f x]) l = map f l.
Proof. induction l as [|x l IH]; simpl; [reflexivity | now rewrite IH]. Qed.

Lemma done_order (W : World) (bucket : string) (db : bool) (n : Z) (c : Checkpoints) :
  in_range_1_5 n ->
  (forall url, In url (build_shard_urls n) ->
               checkpoint_done W c (shard_key n url) = true) ->
  store_of (shard_loop W bucket db n c) = c
  /\ type_calls W bucket db n c = skipped_order_calls bucket n.
Proof.
  intros Hn Hdone.
  assert (Hproc : processed_shards W n c (build_shard_urls n) = []).
  { unfold processed_shards. rewrite <- (filter_false (build_shard_urls n)).
    apply filter_ext_in'. intros url Hurl. now rewrite (Hdone url Hurl). }
  assert (Htop : type_top W bucket db n c = []).
  { unfold type_top. rewrite (shard_loop_aggregate W bucket db n c Hn), Hproc.
    apply filter_and_rank_nil. }
  split.
  - rewrite (shard_loop_store W bucket db n c Hn), Hproc. reflexivity.
  - unfold type_calls, skipped_order_calls. rewrite Htop. f_equal.
    rewrite <- flat_map_singleton. apply flat_map_ext_in. intros url Hurl.
    unfold turn_calls. now rewrite (Hdone url Hurl).
Qed.

Lemma done_orders (W : World) (bucket : string) (db : bool) (c : Checkpoints)
    (ns : list Z) :
  Forall in_range_1_5 ns ->
  all_done W c ->
  types_store W bucket db ns c = c
  /\ types_calls W bucket db ns c = flat_map (skipped_order_calls bucket) ns
  /\ forall outs,
       truthy (words_top outs) = false ->
       truthy (phrases_top_accum outs) = false ->
       truthy (words_top (types_outs W bucket db ns outs c)) = false
       /\ truthy (phrases_top_accum (types_outs W bucket db ns outs c)) = false.
Proof.
  intros Hr Hdone. induction Hr as [|n ns Hn _ IH].
  - split; [reflexivity|]. split; [reflexivity|]. intros outs Hw Hp. now split.
  - destruct (done_order W bucket db n c Hn (fun url Hurl => Hdone n url Hn Hurl))
      as (Hs & Hc).
    destruct IH as (IHs & IHc & IHo).
    cbn [types_store types_calls types_outs flat_map]. rewrite Hs, Hc.
    split; [exact IHs|]. split; [now rewrite IHc|].
    intros outs Hw Hp. apply IHo.
    + assert (Htop : type_top W bucket db n c = []).
      { unfold type_top. rewrite (shard_loop_aggregate W bucket db n c Hn).
        replace (processed_shards W n c (build_shard_urls n)) with (@nil string);
          [apply filter_and_rank_nil|].
        symmetry. unfold processed_shards.
        rewrite <- (filter_false (build_shard_urls n)).
        apply filter_ext_in'. intros url Hurl. now rewrite (Hdone n url Hn Hurl). }
      rewrite Htop. unfold next_outs. destruct (n =? 1); [reflexivity | exact Hw].
    + assert (Htop : type_top W bucket db n c = []).
      { unfold type_top. rewrite (shard_loop_aggregate W bucket db n c Hn).
        replace (processed_shards W n c (build_shard_urls n)) with (@nil string);
          [apply filter_and_rank_nil|].
        symmetry. unfold processed_shards.
        rewrite <- (filter_false (build_shard_urls n)).
        apply filter_ext_in'. intros url Hurl. now rewrite (Hdone n url Hn Hurl). }
      rewrite Htop. unfold next_outs. destruct (n =? 1); cbn [phrases_top_accum];
        [exact Hp | now rewrite app_nil_r].
Qed.

(** A run that starts on a store where every shard is done. *)
Lemma main_all_done (W : World) (bucket : string) (c : Checkpoints) :
  bucket_of W bucket ->
  all_done W c ->
  store_of (main W c) = c
  /\ calls (events_of (main W c))
     = app (flat_map (skipped_order_calls bucket) (range 1 6)) [JobStatusSet].
Proof.
  intros Hb Hdone. destruct (main_run W bucket c Hb) as (Hs & He).
  destruct (done_orders W bucket (client_ok W) c (range 1 6) orders_in_range Hdone)
    as (Hstore & Hcalls & Houts).
  destruct (Houts initial_outs eq_refl eq_refl) as (Hw & Hp).
  split; [now rewrite Hs|].
  rewrite He, Hcalls. unfold consolidated_calls. now rewrite Hw, Hp.
Qed.

(** X15. Running again after a run.  When the checkpoint store takes
    every read and every write, the store a run leaves reports every
    shard done; a second run started on it requests nothing and writes
    no checkpoint: it reads each checkpoint, uploads the empty list to
    each [{n}gram_top.json], in place of what the first run uploaded
    there, writes the job status, uploads no consolidated file, and
    leaves the store as it found it. *)
Theorem rerun_after_complete_run (W : World) (bucket : string) (c0 : Checkpoints)
    (Hb : bucket_of W bucket)
    (Hget : forall key, checkpoint_get_error W key = None)
    (Hset : forall key, checkpoint_set_error W key = None) :
  let c1 := store_of (main W c0) in
  let E := events_of (main W c1) in
  all_done W c1
  /\ store_of (main W c1) = c1
  /\ calls E = app (flat_map (skipped_order_calls bucket) (range 1 6)) [JobStatusSet]
  /\ downloads E = []
  /\ checkpoint_writes E = []
  /\ (forall n, in_range_1_5 n -> uploads_to bucket (top_path n) E = [JsonList []])
  /\ uploads_to bucket words_path E = []
  /\ uploads_to bucket phrases_path E = [].
Proof.
  intros c1 E.
  assert (Hdone : all_done W c1).
  { intros n url Hn Hurl. unfold checkpoint_done. rewrite Hget.
    apply (main_marks_done W bucket c0 n url Hb Hn Hurl (Hset _)). }
  destruct (main_all_done W bucket c1 Hb Hdone) as (Hs & Hc).
  fold E in Hc.
  destruct (main_uploads W bucket c1 Hb) as (Htop & Hwords & Hphrases).
  fold E in Htop, Hwords, Hphrases.
  assert (Htops : forall n, in_range_1_5 n -> top_of W bucket c1 n = []).
  { intros n Hn. unfold top_of, store_before.
    assert (Hpre : Forall in_range_1_5 (range 1 n)).
    { apply range_1_5_cases in Hn.
      destruct Hn as [->|[->|[->|[->| ->]]]];
        repeat constructor; unfold in_range_1_5; simpl; lia. }
    destruct (done_orders W bucket (client_ok W) c1 (range 1 n) Hpre Hdone) as (Hst & _).
    rewrite Hst. unfold type_top.
    rewrite (shard_loop_aggregate W bucket (client_ok W) n c1 Hn).
    replace (processed_shards W n c1 (build_shard_urls n)) with (@nil string);
      [apply filter_and_rank_nil|].
    symmetry. unfold processed_shards. rewrite <- (filter_false (build_shard_urls n)).
    apply filter_ext_in'. intros url Hurl. now rewrite (Hdone n url Hn Hurl). }
  split; [exact Hdone|]. split; [exact Hs|]. split; [exact Hc|].
  split.
  { rewrite <- downloads_calls, Hc. vm_compute. reflexivity. }
  split.
  { rewrite <- checkpoint_writes_calls, Hc. vm_compute. reflexivity. }
  split.
  { intros n Hn. rewrite (Htop n Hn), (Htops n Hn). reflexivity. }
  split.
  - rewrite Hwords, (Htops 1) by (unfold in_range_1_5; lia). reflexivity.
  - rewrite Hphrases, (Htops 2), (Htops 3), (Htops 4), (Htops 5)
      by (unfold in_range_1_5; lia).
    reflexivity.
Qed.

Lemma rerun_after_complete_run_witness :
  bucket_of world_cat "bucket"
  /\ (forall key, checkpoint_get_error world_cat key = None)
  /\ (forall key, checkpoint_set_error world_cat key = None)
  /\ uploads_to "bucket" (top_path 1) (events_of (main world_cat []))
     = [JsonList [ {| gram := "cat"; freq := 156000 |} ]]
  /\ uploads_to "bucket" (top_path 1)
       (events_of (main world_cat (store_of (main world_cat []))))
     = [JsonList []].
Proof.
  assert (Hn : in_range_1_5 1) by (unfold in_range_1_5; lia).
  split; [exact world_cat_bucket|].
  split; [reflexivity|]. split; [reflexivity|].
  split.
  - destruct (main_uploads world_cat "bucket" [] world_cat_bucket) as (Htop & _).
    rewrite (Htop 1 Hn), world_cat_top_1. reflexivity.
  - destruct (rerun_after_complete_run world_cat "bucket" [] world_cat_bucket
                (fun _ => eq_refl) (fun _ => eq_refl))
      as (_ & _ & _ & _ & _ & Htop & _).
    exact (Htop 1 Hn).
Defined.

(* ------------------------------------------------------------------ *)
(** ** The grams that are admitted *)
(* ------------------------------------------------------------------ *)

Lemma concat_split (sep : ascii) (s : string) :
  String.concat (String sep "") (PyStr.split sep s) = s.
Proof.
  induction s as [|c s IH]; [reflexivity|].
  simpl PyStr.split. destruct (Ascii.eqb_spec c sep) as [->|Hne].
  - pose proof (split_not_nil sep s) as Hnil.
    destruct (PyStr.split sep s) as [|f fs]; [congruence|].
    change (String.concat (String sep "") ("" :: f :: fs))
      with (String sep (String.concat (String sep "") (f :: fs))).
    now rewrite IH.
  - pose proof (split_not_nil sep s) as Hnil.
    destruct (PyStr.split sep s) as [|f fs]; [congruence|].
    rewrite <- IH. destruct fs; reflexivity.
Qed.

Lemma split_no_sep (sep : ascii) (s : string) :
  has_char sep s = false -> PyStr.split sep s = [s].
Proof.
  induction s as [|c s IH]; intro H; [reflexivity|].
  simpl in H. apply orb_false_iff in H. destruct H as [Hc Hs].
  simpl. rewrite Hc, (IH Hs). reflexivity.
Qed.

Lemma split_app_sep (sep : ascii) (a b : string) :
  has_char sep a = false ->
  PyStr.split sep (a ++ String sep b) = a :: PyStr.split sep b.
Proof.
  induction a as [|c a IH]; intro H.
  - simpl. now rewrite Ascii.eqb_refl.
  - simpl in H. apply orb_false_iff in H. destruct H as [Hc Ha].
    simpl. rewrite Hc, (IH Ha). reflexivity.
Qed.

Lemma split_concat (sep : ascii) (tokens : list string) :
  tokens <> [] ->
  Forall (fun t => has_char sep t = false) tokens ->
  PyStr.split sep (String.concat (String sep "") tokens) = tokens.
Proof.
  intros Hne H. induction H as [|t ts Ht Hts IH]; [congruence|].
  destruct ts as [|t' ts].
  - simpl. now apply split_no_sep.
  - change (String.concat (String sep "") (t :: t' :: ts))
      with (t ++ String sep (String.concat (String sep "") (t' :: ts))).
    rewrite (split_app_sep sep t _ Ht), IH; [reflexivity | discriminate].
Qed.

Lemma letters_has_char (c : ascii) (s : string) :
  is_ascii_letter c = false ->
  forallb is_ascii_letter (list_ascii_of_string s) = true ->
  has_char c s = false.
Proof.
  intros Hc. induction s as [|d s IH]; intro H; [reflexivity|].
  simpl in H. apply andb_true_iff in H. destruct H as [Hd Hs].
  simpl. rewrite (IH Hs), orb_false_r.
  destruct (Ascii.eqb_spec d c) as [->|]; [congruence | reflexivity].
Qed.

Lemma alphabetic_only_has_char (c : ascii) (t : string) :
  is_ascii_letter c = false -> alphabetic_only t = true -> has_char c t = false.
Proof.
  intros Hc Ht. unfold alphabetic_only in Ht. apply andb_true_iff in Ht.
  now apply letters_has_char.
Qed.

(** X16. The grams admitted for order [n] are exactly the strings made
    of [n] non-empty words of ASCII letters joined by single spaces: a
    space in front, at the end or doubled gives an empty token and the
    gram is not admitted.  (Read on grams without newline, as the grams
    of stream lines are.) *)
Theorem admitted_grams (n : Z) (g : string)
    (Hg : has_char PyStr.LF g = false) :
  admitted_gram n g <->
  exists tokens,
    g = String.concat " " tokens
    /\ Z.of_nat (length tokens) = n
    /\ tokens <> []
    /\ Forall (fun t => alphabetic_only t = true) tokens.
Proof.
  unfold admitted_gram. split.
  - intros [Hlen Hclean]. exists (PyStr.split PyStr.SPACE g).
    split; [symmetry; apply concat_split|]. split; [exact Hlen|].
    split; [apply split_not_nil|].
    rewrite (is_clean_gram_tokens g Hg) in Hclean.
    apply Forall_forall. now apply forallb_forall.
  - intros (tokens & -> & Hlen & Hne & Hall).
    assert (Hsplit : PyStr.split PyStr.SPACE (String.concat " " tokens) = tokens).
    { apply (split_concat PyStr.SPACE tokens Hne).
      eapply Forall_impl; [|exact Hall].
      intros t Ht. now apply alphabetic_only_has_char. }
    rewrite Hsplit. split; [exact Hlen|].
    unfold is_clean_gram. apply andb_true_iff. split.
    + apply Z.ltb_lt. destruct tokens; [congruence | simpl; lia].
    + apply forallb_forall. intros t Ht. rewrite Forall_forall in Hall.
      rewrite is_alpha_alphabetic_only; [now apply Hall|].
      apply alphabetic_only_has_char; [reflexivity | now apply Hall].
Qed.

Lemma admitted_grams_witness :
  has_char PyStr.LF "new york" = false
  /\ admitted_gram 2 "new york"
  /\ ~ admitted_gram 3 "new  york".
Proof.
  assert (H : has_char PyStr.LF "new york" = false) by reflexivity.
  split; [exact H|]. split.
  - apply (admitted_grams 2 "new york" H). exists ["new"; "york"].
    repeat split; [discriminate | repeat constructor].
  - intros [_ Hclean]. vm_compute in Hclean. discriminate.
Defined.

(* ------------------------------------------------------------------ *)
(** ** The per-shard file *)
(* ------------------------------------------------------------------ *)

Lemma above_threshold_In (d : Dict) (item : string * Z) :
  In item (above_threshold d) <-> In item d /\ 5000 <= snd item.
Proof. unfold above_threshold. rewrite filter_In, Z.leb_le. tauto. Qed.

(** X17. The turn that processes a shard uploads one file for it, to
    [{n}gram_{shard}_filtered.json], before it writes the checkpoint.
    The file holds the entries of the shard's map with a count of at
    least 5000 and no other, each gram once, while the merge into the
    type aggregate takes every entry of the shard's map, below the
    threshold or not. *)
Theorem shard_file_contents (W : World) (bucket : string) (db : bool) (n : Z)
    (vars : type_vars) (url : string) (c : Checkpoints)
    (Hdone : checkpoint_done W c (shard_key n url) = false) :
  let turn := shard_loop_body W bucket OUT_PREFIX db n (ngram_type_of n) vars url c in
  exists file,
    calls (events_of turn)
    = [CheckpointGet (shard_key n url); HttpGet url;
       Upload bucket (shard_file OUT_PREFIX n url) (JsonDict file);
       CheckpointSet (shard_key n url) url; Sleep 1]
    /\ NoDup (dict_keys file)
    /\ (forall item, In item file <-> In item (shard_results W n url) /\ 5000 <= snd item)
    /\ forall g,
         dict_count (type_aggregate (result_of turn)) g
         = dict_count (type_aggregate vars) g + dict_count (shard_results W n url) g.
Proof.
  intro turn. subst turn. exists (above_threshold (shard_results W n url)).
  destruct (process_shard_well_keyed (http_response W url) url n) as [Hnd _].
  fold (shard_results W n url) in Hnd.
  split; [|split; [|split]].
  - rewrite shard_loop_body_events, turn_events_calls. unfold turn_calls.
    now rewrite Hdone.
  - unfold above_threshold. now apply filter_keys_NoDup.
  - intro item. apply above_threshold_In.
  - intro g. rewrite shard_loop_body_run, Hdone. unfold result_of. cbn [fst type_aggregate].
    rewrite dict_count_merge. f_equal. now apply entries_total_unique.
Qed.

Lemma shard_file_contents_witness :
  checkpoint_done world_cat [] (shard_key 1 url_1a) = false
  /\ exists file,
       calls (events_of (shard_loop_body world_cat "bucket" OUT_PREFIX true 1
                           (ngram_type_of 1) initial_type_vars url_1a []))
       = [CheckpointGet (shard_key 1 url_1a); HttpGet url_1a;
          Upload "bucket" (shard_file OUT_PREFIX 1 url_1a) (JsonDict file);
          CheckpointSet (shard_key 1 url_1a) url_1a; Sleep 1].
Proof.
  assert (H : checkpoint_done world_cat [] (shard_key 1 url_1a) = false) by reflexivity.
  split; [exact H|].
  destruct (shard_file_contents world_cat "bucket" true 1 initial_type_vars url_1a [] H)
    as (file & Hcalls & _).
  exists file. exact Hcalls.
Defined.
